(** * A shallow embedding of the intermediate Python web scraper

    The development follows the three source files:
    - [analysis.py]    : aggregation, statistics, validation;
    - [parsers.py]     : BeautifulSoup-based extraction and text cleaning;
    - [web_scraper.py] : the fetcher with its robots gate and [extract_items].

    Part I holds the definitions, Part II the lemmas and theorems. *)

From Stdlib Require Import Ascii QArith Qminmax Lqa Sorted Permutation.
From stdpp Require Import gmap strings list fin_maps.

(* ===================================================================== *)
(** * Part I. Definitions                                                  *)
(* ===================================================================== *)

(** ** Python values

    Field values of a scraped record are scalars.  A float held by a
    record is finite and modelled as the rational it denotes; the rounding
    of float arithmetic is outside the model. *)

Inductive pyval : Type :=
| VNone
| VBool (b : bool)
| VInt (z : Z)
| VFloat (q : Q)
| VStr (s : string).

(** The numeric value of a number; booleans are the integers 0 and 1. *)
Definition num_of (v : pyval) : option Q :=
  match v with
  | VBool b => Some (if b then 1%Q else 0%Q)
  | VInt z => Some (inject_Z z)
  | VFloat q => Some q
  | VNone | VStr _ => None
  end.

(** Python's [==] on scalars: numbers compare by value across [bool], [int]
    and [float]; [None] equals only [None]; strings compare by content. *)
Definition py_eq (a b : pyval) : bool :=
  match a, b with
  | VNone, VNone => true
  | VStr s, VStr t => String.eqb s t
  | _, _ =>
      match num_of a, num_of b with
      | Some x, Some y => Qeq_bool x y
      | _, _ => false
      end
  end.

(** Truthiness of [str] and of [Optional[str]] ([if key:], [if not text:]). *)
Definition truthy_str (s : string) : bool :=
  match s with EmptyString => false | String _ _ => true end.

Definition truthy_opt_str (o : option string) : bool :=
  match o with Some s => truthy_str s | None => false end.

(** A record is a Python [dict] from field names to scalars. *)
Abbreviation record := (gmap string pyval).

(** [item.get(key)]: the value, or [None] when the key is missing. *)
Definition dict_get (item : record) (key : string) : pyval :=
  default VNone (item !! key).

(** A float as [float(x)] can return it: a finite value, an infinity or
    NaN ([float("inf")], [float("nan")], [float("1e999")]). *)
Inductive pyfloat : Type :=
| FFin (q : Q)
| FInf (negative : bool)
| FNaN.

(** What the language leaves to the runtime: the parser behind [float(str)]
    ([None] stands for [ValueError]) and the iteration order of a [set]. *)
Record PyRuntime := {
  float_of_str : string → option pyfloat;
  set_iter : list record → list record
}.

(** What the floating-point arithmetic of the runtime decides: [round q] is
    the float that an operation with the exact result [q] returns (the
    nearest binary64 value, an infinity when [q] is out of range),
    [float_sum] is the built-in [sum] on a list of floats, whose rounding
    differs between versions of the interpreter, and [sorted_nan] is
    [sorted] on a list that holds NaN, where the result depends on the
    sorting algorithm. *)
Record FloatRuntime := {
  round : Q → pyfloat;
  float_sum : list pyfloat → pyfloat;
  sorted_nan : list pyfloat → list pyfloat
}.

(** ** analysis.py : DataAggregator *)

(** The third argument of [filter_data] is duck-typed: [callable(value)]
    separates a predicate from a literal.  The predicate's result is used
    for its truthiness only. *)
Inductive filter_arg : Type :=
| Callable (f : pyval → bool)
| Literal (v : pyval).

Definition filter_data (data : list record) (key : string) (value : filter_arg)
  : list record :=
  match value with
  | Callable f =>
      List.filter
        (λ item, match item !! key with Some v => f v | None => false end)
        data
  | Literal v =>
      List.filter (λ item, py_eq (dict_get item key) v) data
  end.

(** ** analysis.py : StatisticalAnalyzer *)

Definition Qlt_bool (x y : Q) : bool := negb (Qle_bool y x).

(** [sorted(values)]: a stable sort, here by insertion. *)
Fixpoint insert_sorted (x : Q) (l : list Q) : list Q :=
  match l with
  | [] => [x]
  | y :: l' => if Qle_bool x y then x :: l else y :: insert_sorted x l'
  end.

Definition sorted (values : list Q) : list Q := foldr insert_sorted [] values.

Definition calculate_median (values : list Q) : option Q :=
  match values with
  | [] => None
  | _ =>
      let sorted_values := sorted values in
      let n := length sorted_values in
      if (n mod 2 =? 0)%nat
      then Some ((nth (n / 2 - 1) sorted_values 0 + nth (n / 2) sorted_values 0) / 2)%Q
      else Some (nth (n / 2) sorted_values 0%Q)
  end.

(** *** Coercion to float *)

(** An [int] converts to a float when it rounds to a finite one: from
    [2^1024 - 2^970] on, [float(z)] raises [OverflowError]. *)
Definition float_overflows (z : Z) : bool :=
  (2 ^ 1024 - 2 ^ 970 <=? Z.abs z)%Z.

(** [float(x)] as [get_numeric_values] sees it: a value, an exception that
    its [except (ValueError, TypeError)] catches, or [OverflowError], which
    it does not catch. *)
Inductive float_result : Type :=
| FloatOk (x : pyfloat)
| FloatCaught
| FloatOverflow.

Definition py_float (rt : PyRuntime) (fl : FloatRuntime) (v : pyval)
  : float_result :=
  match v with
  | VNone => FloatCaught
  | VBool b => FloatOk (FFin (if b then 1 else 0))
  | VInt z =>
      if float_overflows z then FloatOverflow
      else FloatOk (round fl (inject_Z z))
  | VFloat q => FloatOk (FFin q)
  | VStr s =>
      match float_of_str rt s with
      | Some x => FloatOk x
      | None => FloatCaught
      end
  end.

(** An exception that leaves the statistics functions. *)
Inductive builtin_exn : Type := OverflowError.

Inductive outcome (A : Type) : Type :=
| Returns (a : A)
| Raises (e : builtin_exn).
Arguments Returns {A} a.
Arguments Raises {A} e.

(** The loop of [get_numeric_values], with [values] as accumulator. *)
Fixpoint get_numeric_values_loop (rt : PyRuntime) (fl : FloatRuntime)
  (data : list record) (key : string) (values : list pyfloat)
  : outcome (list pyfloat) :=
  match data with
  | [] => Returns values
  | item :: rest =>
      match item !! key with
      | Some v =>
          match py_float rt fl v with
          | FloatOk x => get_numeric_values_loop rt fl rest key (values ++ [x])
          | FloatCaught => get_numeric_values_loop rt fl rest key values
          | FloatOverflow => Raises OverflowError
          end
      | None => get_numeric_values_loop rt fl rest key values
      end
  end.

Definition get_numeric_values (rt : PyRuntime) (fl : FloatRuntime)
  (data : list record) (key : string) : outcome (list pyfloat) :=
  get_numeric_values_loop rt fl data key [].

(** *** Arithmetic and order of floats *)

Definition is_nan (x : pyfloat) : bool :=
  match x with FNaN => true | _ => false end.

(** [x < y]: every comparison with NaN is false. *)
Definition float_lt (x y : pyfloat) : bool :=
  match x, y with
  | FFin a, FFin b => Qlt_bool a b
  | FFin _, FInf negative => negb negative
  | FInf negative, FFin _ => negative
  | FInf a, FInf b => a && negb b
  | _, _ => false
  end.

(** [x + y]: the exact sum, rounded; opposite infinities add up to NaN. *)
Definition float_add (fl : FloatRuntime) (x y : pyfloat) : pyfloat :=
  match x, y with
  | FFin a, FFin b => round fl (a + b)
  | FFin _, FInf b => FInf b
  | FInf a, FFin _ => FInf a
  | FInf a, FInf b => if Bool.eqb a b then FInf a else FNaN
  | _, _ => FNaN
  end.

(** [x / n] for a positive [int] [n]: the exact quotient, rounded. *)
Definition float_div (fl : FloatRuntime) (x : pyfloat) (n : positive)
  : pyfloat :=
  match x with
  | FFin a => round fl (a / inject_Z (Z.pos n))
  | _ => x
  end.

(** [sum(values)]. *)
Definition py_sum (fl : FloatRuntime) (values : list pyfloat) : pyfloat :=
  float_sum fl values.

(** [min] and [max] of a non-empty list: the value held is replaced by an
    element that is strictly below it, or strictly above it. *)
Definition py_min (x : pyfloat) (rest : list pyfloat) : pyfloat :=
  fold_left (λ m y, if float_lt y m then y else m) rest x.

Definition py_max (x : pyfloat) (rest : list pyfloat) : pyfloat :=
  fold_left (λ m y, if float_lt m y then y else m) rest x.

Definition calculate_average (fl : FloatRuntime) (values : list pyfloat)
  : option pyfloat :=
  match values with
  | [] => None
  | _ :: rest =>
      Some (float_div fl (py_sum fl values) (Pos.of_succ_nat (length rest)))
  end.

Definition calculate_min_max (values : list pyfloat)
  : option pyfloat * option pyfloat :=
  match values with
  | [] => (None, None)
  | x :: rest => (Some (py_min x rest), Some (py_max x rest))
  end.

(** [sorted] on floats.  Without NaN the order is total and the result is
    that of any stable sort, here by insertion; with NaN among the values
    the result is left to the runtime ([sorted_nan]). *)
Fixpoint float_insert (x : pyfloat) (l : list pyfloat) : list pyfloat :=
  match l with
  | [] => [x]
  | y :: l' => if negb (float_lt y x) then x :: l else y :: float_insert x l'
  end.

Definition float_sorted (fl : FloatRuntime) (values : list pyfloat)
  : list pyfloat :=
  if existsb is_nan values then sorted_nan fl values
  else foldr float_insert [] values.

(** [calculate_median] as [get_statistics] calls it, on floats: the sum
    and the halving of the even case are rounded, and values may be
    infinite or NaN.  Where no rounding occurs it is [calculate_median]
    above. *)
Definition calculate_median_float (fl : FloatRuntime) (values : list pyfloat)
  : option pyfloat :=
  match values with
  | [] => None
  | _ =>
      let sorted_values := float_sorted fl values in
      let n := length sorted_values in
      if (n mod 2 =? 0)%nat
      then Some (float_div fl
                   (float_add fl (nth (n / 2 - 1) sorted_values FNaN)
                                 (nth (n / 2) sorted_values FNaN)) 2)
      else Some (nth (n / 2) sorted_values FNaN)
  end.

(** A value of the statistics object. *)
Inductive statval : Type :=
| SInt (z : Z)
| SFloat (x : pyfloat)
| SNone.

Definition opt_float (o : option pyfloat) : statval :=
  match o with Some x => SFloat x | None => SNone end.

(** The statistics object is a [dict]; the empty one is [{}].  An
    exception of [get_numeric_values] leaves [get_statistics] as well. *)
Definition get_statistics (rt : PyRuntime) (fl : FloatRuntime)
  (data : list record) (key : string) : outcome (gmap string statval) :=
  match get_numeric_values rt fl data key with
  | Raises e => Raises e
  | Returns [] => Returns ∅
  | Returns (x :: rest) =>
      let values := x :: rest in
      Returns
        {[ "count" := SInt (Z.of_nat (length values));
           "sum" := SFloat (py_sum fl values);
           "average" := opt_float (calculate_average fl values);
           "median" := opt_float (calculate_median_float fl values);
           "min" := SFloat (py_min x rest);
           "max" := SFloat (py_max x rest) ]}
  end.

(** ** analysis.py : DataValidator *)

(** The loop of the keyed branch of [remove_duplicates]: [seen] is the set
    of key values met so far, [unique] the records kept so far. *)
Fixpoint remove_duplicates_loop (key : string) (data : list record)
  (seen : list pyval) (unique : list record) : list record :=
  match data with
  | [] => unique
  | item :: rest =>
      match item !! key with
      | Some v =>
          if negb (existsb (py_eq v) seen)
          then remove_duplicates_loop key rest (v :: seen) (unique ++ [item])
          else remove_duplicates_loop key rest seen unique
      | None => remove_duplicates_loop key rest seen unique
      end
  end.

(** Equality of two records as [tuple(sorted(d.items()))]. *)
Definition rec_eq (m1 m2 : record) : bool :=
  bool_decide (dom m1 = dom m2)
  && forallb (λ kv, py_eq (dict_get m2 kv.1) kv.2) (map_to_list m1).

(** The records a set comprehension over [data] holds: one per class. *)
Fixpoint distinct_records (data : list record) (seen : list record)
  : list record :=
  match data with
  | [] => []
  | d :: rest =>
      if existsb (rec_eq d) seen then distinct_records rest seen
      else d :: distinct_records rest (d :: seen)
  end.

Definition remove_duplicates (rt : PyRuntime) (data : list record)
  (key : option string) : list record :=
  match key with
  | Some k =>
      if truthy_str k then remove_duplicates_loop k data [] []
      else set_iter rt (distinct_records data [])
  | None => set_iter rt (distinct_records data [])
  end.


(** The first record of [data] that has [key] with a value equal to [v]. *)
Definition first_with (key : string) (v : pyval) (data : list record)
  : option record :=
  List.find
    (λ r, match r !! key with Some w => py_eq w v | None => false end) data.



(** The numeric projection of a record list: the coerced field of every
    record that has the key and whose value coerces, in input order. *)
Definition numeric_projection (rt : PyRuntime) (fl : FloatRuntime)
  (data : list record) (key : string) : list pyfloat :=
  omap (λ item : record,
          match item !! key with
          | Some v =>
              match py_float rt fl v with
              | FloatOk x => Some x
              | _ => None
              end
          | None => None
          end) data.

(** Some record holds under [key] an [int] too large for a float. *)
Definition has_overflow (data : list record) (key : string) : bool :=
  existsb (λ item : record,
             match item !! key with
             | Some (VInt z) => float_overflows z
             | _ => false
             end) data.

(** ** Text and whitespace

    A Python [str] is modelled as a Stdlib [string], read as a sequence of
    code points below 256.  The scanning functions are written over lists
    of characters, for any whitespace class [ws]. *)

(** [str.isspace] on one character, which is also the class [\s] of [re]
    for [str] patterns: TAB to CR, FS to US, SPACE, NEL and NBSP. *)
Definition isspace (c : ascii) : bool :=
  let n := nat_of_ascii c in
  ((9 <=? n) && (n <=? 13)) || ((28 <=? n) && (n <=? 31))
  || (n =? 32) || (n =? 133) || (n =? 160).

Definition space : ascii := " "%char.

(** [re.sub(r"\s+", sp, l)], scanning left to right; [in_run] tells that
    the previous character was whitespace, so that a maximal run of
    whitespace yields one [sp]. *)
Fixpoint sub_ws {A} (ws : A → bool) (sp : A) (in_run : bool) (l : list A)
  : list A :=
  match l with
  | [] => []
  | c :: l' =>
      if ws c
      then if in_run then sub_ws ws sp true l' else sp :: sub_ws ws sp true l'
      else c :: sub_ws ws sp false l'
  end.

Fixpoint lstrip {A} (ws : A → bool) (l : list A) : list A :=
  match l with
  | [] => []
  | c :: l' => if ws c then lstrip ws l' else l
  end.

Fixpoint rstrip {A} (ws : A → bool) (l : list A) : list A :=
  match l with
  | [] => []
  | c :: l' =>
      match rstrip ws l' with
      | [] => if ws c then [] else [c]
      | r => c :: r
      end
  end.

(** [l.strip()]. *)
Definition strip {A} (ws : A → bool) (l : list A) : list A :=
  rstrip ws (lstrip ws l).

Definition str_strip (s : string) : string :=
  String.string_of_list_ascii (strip isspace (String.list_ascii_of_string s)).

(** A normalised text: every whitespace character is [sp] and stands
    alone; the index tells whether the character before was whitespace. *)
Inductive Norm {A} (ws : A → bool) (sp : A) : bool → list A → Prop :=
| Norm_nil b : Norm ws sp b []
| Norm_sp l : Norm ws sp true l → Norm ws sp false (sp :: l)
| Norm_char b c l : ws c = false → Norm ws sp false l → Norm ws sp b (c :: l).

(** ** parsers.py : DataCleaner *)

Definition clean_text (text : option string) : string :=
  if negb (truthy_opt_str text) then ""
  else
    let text := default "" text in
    String.string_of_list_ascii
      (strip isspace (sub_ws isspace space false (String.list_ascii_of_string text))).

(** ** The document tree of BeautifulSoup *)

(** The value of an attribute: a string, or a list of strings for the
    multi-valued attributes such as [class]. *)
Inductive AttrVal : Type :=
| AStr (s : string)
| AList (l : list string).

(** The strings that BeautifulSoup sets apart from ordinary text:
    comments, declarations and the like, and the content of [script],
    [style], [template], [rt] and [rp] elements.  Ordinary text and CDATA
    sections are [PString] below. *)
Inductive string_class : Type :=
| Preformatted
| Script
| Stylesheet
| TemplateString
| RubyTextString
| RubyParenthesisString.

Inductive Tag : Type :=
| mkTag (name : string) (attrs : gmap string AttrVal)
    (contents : list PageElement)
with PageElement : Type :=
| PTag (t : Tag)
| PString (s : string)
| PSpecial (c : string_class) (s : string).

Definition tag_name (t : Tag) : string := let 'mkTag n _ _ := t in n.
Definition tag_attrs (t : Tag) : gmap string AttrVal := let 'mkTag _ a _ := t in a.
Definition tag_contents (t : Tag) : list PageElement := let 'mkTag _ _ c := t in c.

(** [el.get(attr)]. *)
Definition tag_get (el : Tag) (attr : string) : option AttrVal :=
  tag_attrs el !! attr.

(** The tags below [t], in document order. *)
Fixpoint descendants (t : Tag) : list Tag :=
  let 'mkTag _ _ cs := t in
  (fix go (cs : list PageElement) : list Tag :=
     match cs with
     | [] => []
     | PTag t' :: cs' => t' :: descendants t' ++ go cs'
     | PString _ :: cs' => go cs'
     | PSpecial _ _ :: cs' => go cs'
     end) cs.

Definition string_class_eqb (a b : string_class) : bool :=
  match a, b with
  | Preformatted, Preformatted | Script, Script | Stylesheet, Stylesheet
  | TemplateString, TemplateString | RubyTextString, RubyTextString
  | RubyParenthesisString, RubyParenthesisString => true
  | _, _ => false
  end.

(** The strings that [get_text] collects on a tag of this name: those of
    one class for the five containers, ordinary text ([None]) otherwise. *)
Definition interesting_class (name : string) : option string_class :=
  if String.eqb name "script" then Some Script
  else if String.eqb name "style" then Some Stylesheet
  else if String.eqb name "template" then Some TemplateString
  else if String.eqb name "rt" then Some RubyTextString
  else if String.eqb name "rp" then Some RubyParenthesisString
  else None.

(** The strings of the wanted class below [t], in document order. *)
Fixpoint strings_in (want : option string_class) (t : Tag) : list string :=
  let 'mkTag _ _ cs := t in
  (fix go (cs : list PageElement) : list string :=
     match cs with
     | [] => []
     | PTag t' :: cs' => strings_in want t' ++ go cs'
     | PString s :: cs' =>
         match want with
         | None => s :: go cs'
         | Some _ => go cs'
         end
     | PSpecial c s :: cs' =>
         match want with
         | Some c' => if string_class_eqb c c' then s :: go cs' else go cs'
         | None => go cs'
         end
     end) cs.

(** The strings that [get_text] on [t] goes through. *)
Definition strings (t : Tag) : list string :=
  strings_in (interesting_class (tag_name t)) t.

(** [t.find_all(names)] and [t.find(name)]. *)
Definition find_all (t : Tag) (names : list string) : list Tag :=
  List.filter (λ d, existsb (String.eqb (tag_name d)) names) (descendants t).

Definition find (t : Tag) (name : string) : option Tag :=
  head (find_all t [name]).

(** [el.get_text(strip=True)]: every string it goes through stripped, the
    empty ones dropped, the rest joined without separator. *)
Definition get_text_strip (el : Tag) : string :=
  String.concat ""
    (List.filter truthy_str (map str_strip (strings el))).

(** The parts of BeautifulSoup used as black boxes: the HTML parser
    [BeautifulSoup(html, "html.parser")] and the selector engine
    [soup.select(selector)], which lists the matches in document order. *)
Record Bs4 := {
  soup_parse : string → Tag;
  css_select : Tag → string → list Tag
}.

(** [soup.select_one(selector)]: the first match, if any. *)
Definition select_one (bs : Bs4) (soup : Tag) (selector : string) : option Tag :=
  head (css_select bs soup selector).

(** ** parsers.py : HTMLParser *)

Record HTMLParser := {
  html_content : string;
  parser_base_url : string;
  soup : Tag
}.

Definition HTMLParser_init (bs : Bs4) (html : string) (base : string)
  : HTMLParser :=
  {| html_content := html; parser_base_url := base; soup := soup_parse bs html |}.

Definition extract_by_selector (bs : Bs4) (self : HTMLParser)
  (selector : string) : list string :=
  map get_text_strip (css_select bs (soup self) selector).

(** Truthiness of an attribute value ([if value:]). *)
Definition truthy_attr (v : AttrVal) : bool :=
  match v with
  | AStr s => truthy_str s
  | AList l => match l with [] => false | _ => true end
  end.

Fixpoint extract_by_selector_attr_loop (elements : list Tag) (attr : string)
  (values : list AttrVal) : list AttrVal :=
  match elements with
  | [] => values
  | elem :: rest =>
      match tag_get elem attr with
      | Some value =>
          if truthy_attr value
          then extract_by_selector_attr_loop rest attr (values ++ [value])
          else extract_by_selector_attr_loop rest attr values
      | None => extract_by_selector_attr_loop rest attr values
      end
  end.

Definition extract_by_selector_attr (bs : Bs4) (self : HTMLParser)
  (selector : string) (attr : string) : list AttrVal :=
  extract_by_selector_attr_loop (css_select bs (soup self) selector) attr [].

(** [dict(zip(headers, cells))]: pairs are inserted in order, so a later
    pair with the same header replaces an earlier one. *)
Definition dict_zip (headers cells : list string) : gmap string string :=
  fold_left (λ m kv, <[kv.1 := kv.2]> m) (zip headers cells) ∅.

Fixpoint extract_table_loop (headers : list string) (rows : list Tag)
  (data : list (gmap string string)) : list (gmap string string) :=
  match rows with
  | [] => data
  | row :: rest =>
      let cells := find_all row ["td"] in
      if length cells =? length headers
      then extract_table_loop headers rest
             (data ++ [dict_zip headers (map get_text_strip cells)])
      else extract_table_loop headers rest data
  end.

Definition extract_table (bs : Bs4) (self : HTMLParser)
  (table_selector : string) : list (gmap string string) :=
  match select_one bs (soup self) table_selector with
  | None => []
  | Some table =>
      match find_all table ["tr"] with
      | [] => []
      | row0 :: rows' =>
          match find table "thead" with
          | Some header_row =>
              let headers := map get_text_strip (find_all header_row ["th"; "td"]) in
              extract_table_loop headers (row0 :: rows') []
          | None =>
              let headers := map get_text_strip (find_all row0 ["th"; "td"]) in
              extract_table_loop headers rows' []
          end
      end
  end.

(** The header labels and the rows that [extract_table] examines as data
    rows: the labels come from the [thead] when there is one and from the
    first row otherwise; only in that second case is a row, the first,
    removed from the rows examined. *)
Definition table_headers (table : Tag) : list string :=
  match find table "thead" with
  | Some header_row => map get_text_strip (find_all header_row ["th"; "td"])
  | None =>
      match find_all table ["tr"] with
      | row0 :: _ => map get_text_strip (find_all row0 ["th"; "td"])
      | [] => []
      end
  end.

Definition table_data_rows (table : Tag) : list Tag :=
  match find table "thead" with
  | Some _ => find_all table ["tr"]
  | None => tail (find_all table ["tr"])
  end.

Definition row_cells (row : Tag) : list string :=
  map get_text_strip (find_all row ["td"]).

(** *** The table extraction as the specification words it

    The header labels come from the header section when there is one and
    from the first row otherwise; the rows of the header (those of the
    header section, or the first row) are no data rows; a cell is a [th]
    or a [td]; every data row with as many cells as there are labels
    becomes a record keyed by the labels, and the other rows are left
    out. *)

(** The tags below [t] that are not inside an element named [skip]. *)
Fixpoint descendants_outside (skip : string) (t : Tag) : list Tag :=
  let 'mkTag _ _ cs := t in
  (fix go (cs : list PageElement) : list Tag :=
     match cs with
     | [] => []
     | PTag t' :: cs' =>
         if String.eqb (tag_name t') skip then go cs'
         else t' :: descendants_outside skip t' ++ go cs'
     | PString _ :: cs' => go cs'
     | PSpecial _ _ :: cs' => go cs'
     end) cs.

Definition described_cells (row : Tag) : list string :=
  map get_text_strip (find_all row ["th"; "td"]).

Definition described_extract_table (bs : Bs4) (self : HTMLParser)
  (table_selector : string) : list (gmap string string) :=
  match select_one bs (soup self) table_selector with
  | None => []
  | Some table =>
      let '(headers, data_rows) :=
        match find table "thead" with
        | Some header_section =>
            (described_cells header_section,
             List.filter (λ d, String.eqb (tag_name d) "tr")
               (descendants_outside "thead" table))
        | None =>
            match find_all table ["tr"] with
            | row0 :: rest => (described_cells row0, rest)
            | [] => ([], [])
            end
        end in
      map (λ row, dict_zip headers (described_cells row))
        (List.filter
           (λ row, length (described_cells row) =? length headers)
           data_rows)
  end.

(** ** web_scraper.py : extraction *)

Record ExtractedItem := {
  source_url : string;
  text : option string;
  attr : option AttrVal
}.

(** [isinstance(val, str) and attr in ("href", "src")]. *)
Definition resolve_attr (urljoin : string → string → string)
  (base_url attr : string) (val : option AttrVal) : option AttrVal :=
  match val with
  | Some (AStr s) =>
      if String.eqb attr "href" || String.eqb attr "src"
      then Some (AStr (urljoin base_url s))
      else val
  | _ => val
  end.

(** The body of the loop of [extract_items]: the item made for one
    matched element. *)
Definition extract_item (urljoin : string → string → string)
  (base_url : string) (attr : option string) (el : Tag) : ExtractedItem :=
  if truthy_opt_str attr
  then
    let a := default "" attr in
    let val := resolve_attr urljoin base_url a (tag_get el a) in
    {| source_url := base_url; text := None; attr := val |}
  else
    let text := get_text_strip el in
    {| source_url := base_url; text := Some text; attr := None |}.

Fixpoint extract_items_loop (urljoin : string → string → string)
  (base_url : string) (attr : option string) (elements : list Tag)
  (results : list ExtractedItem) : list ExtractedItem :=
  match elements with
  | [] => results
  | el :: rest =>
      extract_items_loop urljoin base_url attr rest
        (results ++ [extract_item urljoin base_url attr el])
  end.

Definition extract_items (bs : Bs4) (urljoin : string → string → string)
  (html base_url selector : string) (attr : option string)
  : list ExtractedItem :=
  let soup := soup_parse bs html in
  extract_items_loop urljoin base_url attr (css_select bs soup selector) [].

(** ** web_scraper.py : Fetcher *)

Definition user_agent : string :=
  "intermediate-python-web-scraper/1.0 (+https://github.com)".

Inductive exn : Type :=
| PermissionError (msg : string)
| HTTPError (status : Z)
| RequestException.

Record Response := {
  status_code : Z;
  resp_text : string
}.

(** The calls into the network libraries, in order: [RobotsRead] is one
    call of [rp.read()], [HttpGet] one call of [session.get(url,
    timeout=...)].  For one such call the mounted adapter may send several
    requests (retries on 429 and 5xx, redirects). *)
Inductive event : Type :=
| RobotsRead (url : string)
| HttpGet (url : string) (timeout : Q).

(** The libraries behind the fetcher: [urlparse] (scheme and netloc),
    [urljoin], the robots parser ([read] gives no parser when it raises)
    and the session with its mounted retry adapter ([session_get] gives the
    final response or the exception of the transport). *)
Record Net := {
  RobotFileParser : Type;
  urlparse : string → string * string;
  net_urljoin : string → string → string;
  robots_read : string → list event → option RobotFileParser;
  can_fetch : RobotFileParser → string → string → bool;
  session_get : string → Q → list event → Response + exn
}.

(** *** The robots parser of the standard library

    [urllib.robotparser], as far as [read] and [can_fetch] go.  Fetching
    the robots file ends in an exception that [read] lets through (no
    connection, undecodable body), in an HTTP error status, which [read]
    handles itself, or in a body that is parsed. *)
Inductive robots_fetch : Type :=
| FetchRaises
| FetchHTTPError (code : Z)
| FetchBody (rules : string → string → bool).

(** The parser after [read]: [parsed] is [last_checked] being set, which
    only [parse] does, and [rules] tells what the parsed entries allow a
    user agent to fetch. *)
Record RobotState := {
  disallow_all : bool;
  allow_all : bool;
  parsed : bool;
  rules : string → string → bool
}.

Definition robotparser_read (f : robots_fetch) : option RobotState :=
  let fresh := {| disallow_all := false; allow_all := false; parsed := false;
                  rules := λ _ _, true |} in
  match f with
  | FetchRaises => None
  | FetchHTTPError code =>
      if (code =? 401)%Z || (code =? 403)%Z
      then Some {| disallow_all := true; allow_all := false; parsed := false;
                   rules := λ _ _, true |}
      else if (400 <=? code)%Z && (code <? 500)%Z
      then Some {| disallow_all := false; allow_all := true; parsed := false;
                   rules := λ _ _, true |}
      else Some fresh
  | FetchBody r =>
      Some {| disallow_all := false; allow_all := false; parsed := true;
              rules := r |}
  end.

Definition robotparser_can_fetch (rp : RobotState) (useragent url : string)
  : bool :=
  if disallow_all rp then false
  else if allow_all rp then true
  else if negb (parsed rp) then false
  else rules rp useragent url.

(** The network as the standard library sees it: [server] tells how
    fetching a robots file ends. *)
Definition urllib_net (parse : string → string * string)
  (join : string → string → string) (server : string → robots_fetch)
  (session : string → Q → list event → Response + exn) : Net :=
  {| RobotFileParser := RobotState;
     urlparse := parse;
     net_urljoin := join;
     robots_read := λ robots_url _, robotparser_read (server robots_url);
     can_fetch := robotparser_can_fetch;
     session_get := session |}.

(** Computations that talk to the network: a state monad over the trace
    of events, with exceptions. *)
Definition IO (A : Type) : Type := list event → (A + exn) * list event.

Definition ret {A} (a : A) : IO A := λ tr, (inl a, tr).
Definition raise {A} (e : exn) : IO A := λ tr, (inr e, tr).
Definition bind {A B} (m : IO A) (k : A → IO B) : IO B :=
  λ tr, match m tr with
        | (inl a, tr') => k a tr'
        | (inr e, tr') => (inr e, tr')
        end.

Notation "'let!' x ':=' m 'in' k" := (bind m (λ x, k))
  (at level 10, x name, m at level 100, k at level 200).

Record Fetcher (net : Net) := {
  timeout : Q;
  base_url : option string;
  _robots : option (RobotFileParser net)
}.
Arguments timeout {net}.
Arguments base_url {net}.
Arguments _robots {net}.

(** [rp.set_url(robots_url); rp.read()] inside [try]: one read over the
    network; an exception leaves no parser. *)
Definition robots_url_of (net : Net) (url : string) : string :=
  let '(scheme, netloc) := urlparse net url in
  scheme +:+ "://" +:+ netloc +:+ "/robots.txt".

Definition _init_robots (net : Net) (url : string)
  : IO (option (RobotFileParser net)) :=
  let robots_url := robots_url_of net url in
  λ tr, (inl (robots_read net robots_url tr), tr ++ [RobotsRead robots_url]).

Definition Fetcher_init (net : Net) (base : option string) (tmo : Q)
  : IO (Fetcher net) :=
  if truthy_opt_str base
  then
    let! rp := _init_robots net (default "" base) in
    ret {| timeout := tmo; base_url := base; _robots := rp |}
  else ret {| timeout := tmo; base_url := base; _robots := None |}.

Definition allowed {net : Net} (self : Fetcher net) (url : string) : bool :=
  match _robots self with
  | None => true
  | Some rp => can_fetch net rp user_agent url
  end.

(** The URL that [get] works on: joined to the base URL when there is one. *)
Definition target_url {net : Net} (self : Fetcher net) (url : string) : string :=
  if truthy_opt_str (base_url self)
  then net_urljoin net (default "" (base_url self)) url
  else url.

(** [self.session.get(url, timeout=self.timeout)]: one call, recorded as
    one event, whatever the adapter sends for it. *)
Definition http_get (net : Net) (url : string) (tmo : Q) : IO Response :=
  λ tr, (session_get net url tmo tr, tr ++ [HttpGet url tmo]).

(** [resp.raise_for_status()]. *)
Definition raise_for_status (resp : Response) : IO unit :=
  if (400 <=? status_code resp)%Z && (status_code resp <? 600)%Z
  then raise (HTTPError (status_code resp))
  else ret tt.

Definition get {net : Net} (self : Fetcher net) (url : string) : IO Response :=
  let url := target_url self url in
  if negb (allowed self url)
  then raise (PermissionError ("robots.txt disallows fetching: " +:+ url))
  else
    let! resp := http_get net url (timeout self) in
    let! ok := raise_for_status resp in
    ret resp.

(** ** Fixtures for the examples

    An engine whose document is given already parsed and whose selectors
    are bare tag names: such a selector matches the descendants of that
    name, in document order. *)
Definition tag_engine (doc : Tag) : Bs4 :=
  {| soup_parse := λ _, doc;
     css_select := λ root selector, find_all root [selector] |}.

(** Two links, the first without [href]. *)
Definition links_doc : Tag :=
  mkTag "[document]" ∅
    [ PTag (mkTag "a" {[ "class" := AList ["link"] ]} [PString "first"]);
      PTag (mkTag "a" {[ "href" := AStr "/p" ]} [PString "second"]) ].

(** A table without header section: a header row, a full row and a row
    that is one cell short. *)
Definition table_elem : Tag :=
  mkTag "table" ∅
    [ PTag (mkTag "tr" ∅
        [ PTag (mkTag "th" ∅ [PString " Name "]);
          PTag (mkTag "th" ∅ [PString "Price"]) ]);
      PTag (mkTag "tr" ∅
        [ PTag (mkTag "td" ∅ [PString "Tea"]);
          PTag (mkTag "td" ∅ [PString "3.50"]) ]);
      PTag (mkTag "tr" ∅
        [ PTag (mkTag "td" ∅ [PString "Milk"]) ]) ].

Definition table_doc : Tag := mkTag "[document]" ∅ [PTag table_elem].

(** A table without header section whose data row starts with a [th]
    cell. *)
Definition rowhead_table : Tag :=
  mkTag "table" ∅
    [ PTag (mkTag "tr" ∅
        [ PTag (mkTag "th" ∅ [PString "Name"]);
          PTag (mkTag "th" ∅ [PString "Price"]) ]);
      PTag (mkTag "tr" ∅
        [ PTag (mkTag "th" ∅ [PString "Tea"]);
          PTag (mkTag "td" ∅ [PString "3.50"]) ]) ].

Definition rowhead_doc : Tag := mkTag "[document]" ∅ [PTag rowhead_table].

(** String concatenation standing for [urljoin] in the examples. *)
Definition concat_urljoin (base url : string) : string := base +:+ url.

(** A network whose robots file lists the URLs that are denied. *)
Definition deny_net (denied : list string) (robots_ok : bool) : Net :=
  {| RobotFileParser := list string;
     urlparse := λ _, ("https", "example.com");
     net_urljoin := concat_urljoin;
     robots_read := λ _ _, if robots_ok then Some denied else None;
     can_fetch := λ rp _ url, negb (existsb (String.eqb url) rp);
     session_get := λ _ _ _, inl {| status_code := 200; resp_text := "" |} |}.

(** A float runtime for examples on small integers and their halves, where
    every operation is exact: nothing is rounded, [sum] adds from left to
    right and a list with NaN is left in its order. *)
Definition exact_sum (values : list pyfloat) : pyfloat :=
  fold_left (λ acc y,
               match acc, y with
               | FFin a, FFin b => FFin (a + b)
               | FFin _, FInf b => FInf b
               | FInf a, FFin _ => FInf a
               | FInf a, FInf b => if Bool.eqb a b then FInf a else FNaN
               | _, _ => FNaN
               end) values (FFin 0).

Definition exact_floats : FloatRuntime :=
  {| round := FFin; float_sum := exact_sum; sorted_nan := λ l, l |}.

(** ** analysis.py : the remaining aggregation and validation functions *)

(** A [dict] whose keys are scalars: the entries in insertion order, keys
    compared with [==].  The key kept is the one inserted first. *)
Definition pydict (V : Type) : Type := list (pyval * V).

(** [d.get(k)]: the value of the entry whose key equals [k]. *)
Fixpoint pydict_get {V} (d : pydict V) (k : pyval) : option V :=
  match d with
  | [] => None
  | (k', x) :: d' => if py_eq k' k then Some x else pydict_get d' k
  end.

(** [grouped[v].append(item)] on a [defaultdict(list)]. *)
Fixpoint group_append (v : pyval) (item : record) (grouped : pydict (list record))
  : pydict (list record) :=
  match grouped with
  | [] => [(v, [item])]
  | (k, g) :: rest =>
      if py_eq k v then (k, g ++ [item]) :: rest
      else (k, g) :: group_append v item rest
  end.

Definition group_by (data : list record) (key : string)
  : pydict (list record) :=
  fold_left
    (λ grouped item,
       match item !! key with
       | Some v => group_append v item grouped
       | None => grouped
       end)
    data [].

(** [Counter(values)]: each element adds one to its count. *)
Fixpoint counter_add (v : pyval) (counts : pydict nat) : pydict nat :=
  match counts with
  | [] => [(v, 1)]
  | (k, n) :: rest =>
      if py_eq k v then (k, S n) :: rest else (k, n) :: counter_add v rest
  end.

Definition count_occurrences (data : list record) (key : string)
  : pydict nat :=
  let values := omap (λ item : record, item !! key) data in
  fold_left (λ counts v, counter_add v counts) values [].

(** The test applied by [filter_data] to one record. *)
Definition filter_test (key : string) (value : filter_arg) (item : record)
  : bool :=
  match value with
  | Callable f => match item !! key with Some v => f v | None => false end
  | Literal v => py_eq (dict_get item key) v
  end.

(** [all(field in item for field in required_fields)]. *)
Definition has_all_fields (required_fields : list string) (item : record)
  : bool :=
  forallb (λ field, bool_decide (is_Some (item !! field))) required_fields.

Fixpoint check_required_fields_loop (data : list record)
  (required_fields : list string) (invalid : list record) : list record :=
  match data with
  | [] => invalid
  | item :: rest =>
      if negb (has_all_fields required_fields item)
      then check_required_fields_loop rest required_fields (invalid ++ [item])
      else check_required_fields_loop rest required_fields invalid
  end.

Definition check_required_fields (data : list record)
  (required_fields : list string) : bool * list record :=
  let invalid := check_required_fields_loop data required_fields [] in
  (length invalid =? 0, invalid).

(** The records of [data] that have [key] with a value equal to [k]. *)
Definition with_key_value (key : string) (k : pyval) (data : list record)
  : list record :=
  List.filter
    (λ r, match r !! key with Some w => py_eq w k | None => false end) data.

(** No two keys of the dictionary are equal. *)
Fixpoint keys_distinct {V} (d : pydict V) : bool :=
  match d with
  | [] => true
  | (k, _) :: d' =>
      negb (existsb (λ kv, py_eq kv.1 k) d') && keys_distinct d'
  end.

(** ** parsers.py : the remaining cleaning functions *)

(** [l.split()]: the maximal runs of characters that are not whitespace;
    [cur] is the run being read. *)
Fixpoint split_ws {A} (ws : A → bool) (l : list A) (cur : list A)
  : list (list A) :=
  match l with
  | [] => match cur with [] => [] | _ => [cur] end
  | c :: l' =>
      if ws c
      then match cur with
           | [] => split_ws ws l' []
           | _ => cur :: split_ws ws l' []
           end
      else split_ws ws l' (cur ++ [c])
  end.

(** [sep.join(parts)] for a separator of one character. *)
Fixpoint join {A} (sep : A) (parts : list (list A)) : list A :=
  match parts with
  | [] => []
  | t :: rest =>
      match rest with
      | [] => t
      | _ => t ++ sep :: join sep rest
      end
  end.

Definition normalize_whitespace (text : string) : string :=
  String.string_of_list_ascii
    (join space (split_ws isspace (String.list_ascii_of_string text) [])).

Definition clean_list (items : list string) : list string :=
  map (λ item, clean_text (Some item)) (List.filter truthy_str items).

(** A one-pass description of whitespace normalisation, used to compare
    the two implementations: the state tells whether no word was read
    yet, a word is being read, or whitespace followed a word. *)
Inductive scan_state : Type := AtStart | InWord | AfterGap.

Fixpoint squeeze {A} (ws : A → bool) (sp : A) (st : scan_state) (l : list A)
  : list A :=
  match l with
  | [] => []
  | c :: l' =>
      if ws c
      then squeeze ws sp (match st with AtStart => AtStart | _ => AfterGap end) l'
      else match st with
           | AfterGap => sp :: c :: squeeze ws sp InWord l'
           | _ => c :: squeeze ws sp InWord l'
           end
  end.

(** The class [\d] on code points below 256: the ASCII digits. *)
Definition isdigit (c : ascii) : bool :=
  let n := nat_of_ascii c in (48 <=? n) && (n <=? 57).

Definition digit_val (c : ascii) : Z := Z.of_nat (nat_of_ascii c - 48).

(** The number a string of digits denotes. *)
Definition digits_val (ds : list ascii) : Z :=
  fold_left (λ acc c, 10 * acc + digit_val c)%Z ds 0%Z.

(** The longest prefix of digits, and what follows it. *)
Fixpoint span_digits (l : list ascii) : list ascii * list ascii :=
  match l with
  | [] => ([], [])
  | c :: l' =>
      if isdigit c
      then let '(ds, rest) := span_digits l' in (c :: ds, rest)
      else ([], l)
  end.

(** [re.search(r"\d+(?:\.\d{2})?", s)]: the match starts at the first
    digit, takes all the digits that follow and then, when a dot and two
    digits come next, those as well.  The result is the integer part and
    the two decimals, if any. *)
Fixpoint search_price (l : list ascii)
  : option (list ascii * option (ascii * ascii)) :=
  match l with
  | [] => None
  | c :: l' =>
      if isdigit c
      then
        let '(ds, rest) := span_digits l in
        Some (ds,
              match rest with
              | dot :: d1 :: d2 :: _ =>
                  if Ascii.eqb dot "."%char && isdigit d1 && isdigit d2
                  then Some (d1, d2) else None
              | _ => None
              end)
      else search_price l'
  end.

(** [float(match.group())] on a matched text. *)
Definition float_of_match (m : list ascii * option (ascii * ascii)) : Q :=
  match m with
  | (ds, None) => inject_Z (digits_val ds)
  | (ds, Some (d1, d2)) =>
      (inject_Z (digits_val ds) + inject_Z (digits_val [d1; d2]) / 100)%Q
  end.

Definition clean_price (price_str : option string) : option Q :=
  if negb (truthy_opt_str price_str) then None
  else
    match search_price (String.list_ascii_of_string (default "" price_str)) with
    | Some m => Some (float_of_match m)
    | None => None
    end.

(** ** web_scraper.py : [summarize] *)

(** The summary is a [dict] with these four entries. *)
Record Summary := {
  count : nat;
  text_items : nat;
  attr_items : nat;
  top_domains : list (string * nat)
}.

(** Truthiness of the two optional fields of an item. *)
Definition truthy_text (o : option string) : bool := truthy_opt_str o.

Definition truthy_opt_attr (o : option AttrVal) : bool :=
  match o with Some v => truthy_attr v | None => false end.

(** [urlparse(target).netloc] inside [try], for [target = i.attr or
    i.source_url]; [netloc_of] is [urlparse(...).netloc] on a string, with
    [None] when it raises.  A list is no URL: [urlparse] raises on it, and
    the network location is then the empty string. *)
Definition item_netloc (netloc_of : string → option string)
  (i : ExtractedItem) : string :=
  if truthy_opt_attr (attr i)
  then match attr i with
       | Some (AStr s) => default "" (netloc_of s)
       | _ => ""
       end
  else default "" (netloc_of (source_url i)).

(** [domains[netloc] = domains.get(netloc, 0) + 1]. *)
Fixpoint domain_add (netloc : string) (domains : list (string * nat))
  : list (string * nat) :=
  match domains with
  | [] => [(netloc, 1)]
  | (d, n) :: rest =>
      if String.eqb d netloc then (d, S n) :: rest
      else (d, n) :: domain_add netloc rest
  end.

(** [sorted(..., key=lambda x: x[1], reverse=True)]: a stable sort by
    decreasing count, here by insertion. *)
Fixpoint insert_desc (x : string * nat) (l : list (string * nat))
  : list (string * nat) :=
  match l with
  | [] => [x]
  | y :: l' => if y.2 <=? x.2 then x :: l else y :: insert_desc x l'
  end.

Definition sorted_desc (l : list (string * nat)) : list (string * nat) :=
  foldr insert_desc [] l.

Definition summarize (netloc_of : string → option string)
  (items : list ExtractedItem) : Summary :=
  let n := length items in
  let n_text := length (List.filter (λ i, truthy_text (text i)) items) in
  let n_attr := length (List.filter (λ i, truthy_opt_attr (attr i)) items) in
  let domains :=
    fold_left (λ domains i, domain_add (item_netloc netloc_of i) domains)
      items [] in
  {| count := n; text_items := n_text; attr_items := n_attr;
     top_domains := take 5 (sorted_desc domains) |}.

(** A table whose header section is written with [td] cells. *)
Definition thead_row : Tag :=
  mkTag "tr" ∅
    [ PTag (mkTag "td" ∅ [PString "Name"]);
      PTag (mkTag "td" ∅ [PString "Price"]) ].

Definition thead_elem : Tag := mkTag "thead" ∅ [PTag thead_row].

Definition thead_table : Tag :=
  mkTag "table" ∅
    [ PTag thead_elem;
      PTag (mkTag "tbody" ∅
        [ PTag (mkTag "tr" ∅
            [ PTag (mkTag "td" ∅ [PString "Tea"]);
              PTag (mkTag "td" ∅ [PString "3.50"]) ]) ]) ].

Definition thead_doc : Tag := mkTag "[document]" ∅ [PTag thead_table].

(** [domains.get(d)]. *)
Fixpoint domain_get (domains : list (string * nat)) (d : string)
  : option nat :=
  match domains with
  | [] => None
  | (d', n) :: rest => if String.eqb d' d then Some n else domain_get rest d
  end.

(** How many items have [d] as network location. *)
Definition netloc_count (netloc_of : string → option string) (d : string)
  (items : list ExtractedItem) : nat :=
  length (List.filter (λ i, String.eqb (item_netloc netloc_of i) d) items).
(* ===================================================================== *)
(** * Part II. Lemmas and theorems                                         *)
(* ===================================================================== *)

(** ** Python equality is an equivalence *)

Lemma py_eq_refl (v : pyval) : py_eq v v = true.
Proof.
  destruct v as [|b|z|q|s]; simpl; try reflexivity.
  - destruct b; reflexivity.
  - apply Qeq_bool_iff. reflexivity.
  - apply Qeq_bool_iff. reflexivity.
  - apply String.eqb_refl.
Qed.

Lemma py_eq_num (a b : pyval) (x y : Q) :
  num_of a = Some x → num_of b = Some y → py_eq a b = Qeq_bool x y.
Proof.
  destruct a, b; simpl; intros Ha Hb; try discriminate;
    injection Ha as <-; injection Hb as <-; reflexivity.
Qed.

(** Values that are equal have the same kind: both [None], both strings
    with the same content, or both numbers with the same value. *)
Lemma py_eq_true_cases (a b : pyval) :
  py_eq a b = true →
  (a = VNone ∧ b = VNone)
  ∨ (∃ s, a = VStr s ∧ b = VStr s)
  ∨ (∃ x y, num_of a = Some x ∧ num_of b = Some y ∧ (x == y)%Q).
Proof.
  intros H.
  destruct (num_of a) as [x|] eqn:Ha, (num_of b) as [y|] eqn:Hb.
  - right; right. exists x, y. rewrite (py_eq_num a b x y Ha Hb) in H.
    apply Qeq_bool_iff in H. auto.
  - destruct a, b; simpl in *; discriminate.
  - destruct a, b; simpl in *; discriminate.
  - destruct a, b; simpl in *; try discriminate.
    + left; auto.
    + right; left. apply String.eqb_eq in H. subst. eauto.
Qed.

Lemma py_eq_sym (a b : pyval) : py_eq a b = py_eq b a.
Proof.
  destruct (py_eq a b) eqn:Hab; symmetry.
  - destruct (py_eq_true_cases _ _ Hab) as [[-> ->]|[(s & -> & ->)|(x & y & Ha & Hb & Hxy)]].
    + reflexivity.
    + apply py_eq_refl.
    + rewrite (py_eq_num b a y x Hb Ha). apply Qeq_bool_iff. symmetry. exact Hxy.
  - destruct (py_eq b a) eqn:Hba; [|reflexivity].
    destruct (py_eq_true_cases _ _ Hba) as [[-> ->]|[(s & -> & ->)|(x & y & Hb & Ha & Hxy)]].
    + simpl in Hab. discriminate.
    + rewrite py_eq_refl in Hab. discriminate.
    + rewrite (py_eq_num a b y x Ha Hb) in Hab.
      assert (Qeq_bool y x = true) as E by (apply Qeq_bool_iff; symmetry; exact Hxy).
      congruence.
Qed.

Lemma py_eq_trans (a b c : pyval) :
  py_eq a b = true → py_eq b c = true → py_eq a c = true.
Proof.
  intros Hab Hbc.
  destruct (py_eq_true_cases _ _ Hab) as [[-> ->]|[(s & -> & ->)|(x & y & Ha & Hb & Hxy)]];
    try exact Hbc.
  destruct (py_eq_true_cases _ _ Hbc) as [[-> ->]|[(s & -> & ->)|(y' & z & Hb' & Hc & Hyz)]];
    try discriminate.
  rewrite Hb in Hb'. injection Hb' as <-.
  rewrite (py_eq_num a c x z Ha Hc). apply Qeq_bool_iff.
  transitivity y; assumption.
Qed.

(** [None] is equal to [None] only. *)
Lemma py_eq_none_l (v : pyval) : py_eq VNone v = true ↔ v = VNone.
Proof.
  split; [|intros ->; reflexivity].
  destruct v; simpl; intros H; try discriminate; reflexivity.
Qed.

Lemma existsb_py_eq_compat (v w : pyval) (seen : list pyval) :
  py_eq v w = true → existsb (py_eq v) seen = existsb (py_eq w) seen.
Proof.
  intros Hvw. induction seen as [|u seen IH]; simpl; [reflexivity|].
  rewrite IH. f_equal.
  destruct (py_eq v u) eqn:Hvu, (py_eq w u) eqn:Hwu; try reflexivity.
  - rewrite py_eq_sym in Hvw.
    rewrite (py_eq_trans w v u Hvw Hvu) in Hwu. discriminate.
  - rewrite (py_eq_trans v w u Hvw Hwu) in Hvu. discriminate.
Qed.

(** ** [filter_data] *)

Lemma filter_data_callable_has_key (data : list record) (key : string)
  (f : pyval → bool) (item : record) :
  item ∈ filter_data data key (Callable f) → is_Some (item !! key).
Proof.
  rewrite list_elem_of_In. simpl. rewrite filter_In. intros [_ H].
  destruct (item !! key); [eauto | discriminate].
Qed.

Lemma filter_data_literal_has_key (data : list record) (key : string)
  (v : pyval) (item : record) :
  v ≠ VNone → item ∈ filter_data data key (Literal v) → is_Some (item !! key).
Proof.
  intros Hv. rewrite list_elem_of_In. simpl. rewrite filter_In. intros [_ H].
  unfold dict_get in H. destruct (item !! key); [eauto|].
  simpl in H. apply py_eq_none_l in H. contradiction.
Qed.

(** C3. With the literal [None] as argument, [filter_data] keeps every
    record that lacks the key: [item.get(key)] is [None] there, and
    [None == None] holds.  Records lacking the key do match. *)
Theorem filter_data_none_keeps_missing (data : list record) (key : string)
  (item : record) :
  item ∈ data → item !! key = None →
  item ∈ filter_data data key (Literal VNone).
Proof.
  intros Hin Hk. rewrite list_elem_of_In in *. simpl. apply filter_In.
  split; [exact Hin|]. unfold dict_get. rewrite Hk. reflexivity.
Qed.

Lemma filter_data_none_keeps_missing_witness :
  ({[ "a" := VInt 1 ]} : record) ∈ [ ({[ "a" := VInt 1 ]} : record) ]
  ∧ ({[ "a" := VInt 1 ]} : record) !! "b" = None
  ∧ ({[ "a" := VInt 1 ]} : record)
      ∈ filter_data [ {[ "a" := VInt 1 ]} ] "b" (Literal VNone).
Proof.
  assert (({[ "a" := VInt 1 ]} : record) ∈ [ ({[ "a" := VInt 1 ]} : record) ])
    as Hin by (apply list_elem_of_here).
  assert (({[ "a" := VInt 1 ]} : record) !! "b" = None) as Hk by reflexivity.
  split; [exact Hin|]. split; [exact Hk|].
  exact (filter_data_none_keeps_missing _ "b" _ Hin Hk).
Defined.

(** ** [remove_duplicates], keyed branch *)

Lemma remove_duplicates_loop_acc (key : string) (data : list record)
  (seen : list pyval) (unique : list record) :
  remove_duplicates_loop key data seen unique
  = unique ++ remove_duplicates_loop key data seen [].
Proof.
  revert seen unique. induction data as [|item rest IH]; intros seen unique; simpl.
  - by rewrite app_nil_r.
  - destruct (item !! key) as [v|]; [|apply IH].
    destruct (negb (existsb (py_eq v) seen)); [|apply IH].
    rewrite (IH _ (unique ++ [item])), (IH _ ([] ++ [item])).
    by rewrite <- app_assoc.
Qed.

Lemma remove_duplicates_loop_cons (key : string) (item : record)
  (rest : list record) (seen : list pyval) :
  remove_duplicates_loop key (item :: rest) seen []
  = match item !! key with
    | Some v =>
        if existsb (py_eq v) seen
        then remove_duplicates_loop key rest seen []
        else item :: remove_duplicates_loop key rest (v :: seen) []
    | None => remove_duplicates_loop key rest seen []
    end.
Proof.
  simpl. destruct (item !! key) as [v|]; [|reflexivity].
  destruct (existsb (py_eq v) seen); simpl; [reflexivity|].
  by rewrite remove_duplicates_loop_acc.
Qed.

Lemma remove_duplicates_loop_sublist (key : string) (data : list record)
  (seen : list pyval) :
  sublist (remove_duplicates_loop key data seen []) data.
Proof.
  revert seen. induction data as [|item rest IH]; intros seen.
  - simpl. constructor.
  - rewrite remove_duplicates_loop_cons.
    destruct (item !! key) as [v|]; [|by apply sublist_cons].
    destruct (existsb (py_eq v) seen); [by apply sublist_cons|].
    by apply sublist_skip.
Qed.

(** A record is kept exactly when its key value is new and it is the first
    record of the input carrying that value. *)
Lemma remove_duplicates_loop_elem (key : string) (data : list record)
  (seen : list pyval) (r : record) :
  r ∈ remove_duplicates_loop key data seen []
  ↔ ∃ v, r !! key = Some v ∧ existsb (py_eq v) seen = false
         ∧ first_with key v data = Some r.
Proof.
  revert seen. induction data as [|item rest IH]; intros seen.
  - simpl. split; [by intros ?%elem_of_nil | by intros (v & _ & _ & ?)].
  - rewrite remove_duplicates_loop_cons. unfold first_with in *. simpl.
    destruct (item !! key) as [v0|] eqn:Hitem; [|apply IH].
    destruct (existsb (py_eq v0) seen) eqn:Hseen.
    + rewrite IH. split; intros (v & Hr & Hv & Hf); exists v;
        (split; [exact Hr|]; split; [exact Hv|]).
      * destruct (py_eq v0 v) eqn:E; [|exact Hf].
        rewrite (existsb_py_eq_compat v0 v seen E) in Hseen. congruence.
      * destruct (py_eq v0 v) eqn:E; [|exact Hf].
        rewrite (existsb_py_eq_compat v0 v seen E) in Hseen. congruence.
    + rewrite elem_of_cons, IH. split.
      * intros [-> | (v & Hr & Hv & Hf)].
        -- exists v0. by rewrite py_eq_refl.
        -- exists v. simpl in Hv. apply orb_false_iff in Hv as [Hv0 Hv].
           rewrite py_eq_sym, Hv0. auto.
      * intros (v & Hr & Hv & Hf).
        destruct (py_eq v0 v) eqn:E.
        -- left. congruence.
        -- right. exists v. simpl. rewrite py_eq_sym, E. auto.
Qed.

Lemma remove_duplicates_loop_distinct (key : string) (data : list record)
  (seen : list pyval) (i j : nat) (r s : record) :
  i < j →
  remove_duplicates_loop key data seen [] !! i = Some r →
  remove_duplicates_loop key data seen [] !! j = Some s →
  py_eq (dict_get r key) (dict_get s key) = false.
Proof.
  revert seen i j. induction data as [|item rest IH]; intros seen i j Hij.
  - simpl. intros H. by rewrite lookup_nil in H.
  - rewrite remove_duplicates_loop_cons.
    destruct (item !! key) as [v0|] eqn:Hitem; [|by apply IH].
    destruct (existsb (py_eq v0) seen); [by apply IH|].
    destruct j as [|j]; [lia|]. destruct i as [|i]; simpl.
    + intros [= <-] Hs.
      assert (s ∈ remove_duplicates_loop key rest (v0 :: seen) []) as Hin
        by (apply list_elem_of_lookup; eauto).
      apply remove_duplicates_loop_elem in Hin as (w & Hw & Hnew & _).
      unfold dict_get. rewrite Hitem, Hw. simpl.
      simpl in Hnew. apply orb_false_iff in Hnew as [Hnew _].
      by rewrite py_eq_sym.
    + apply IH. lia.
Qed.

(** C4. With a key given, [remove_duplicates] returns a subsequence of the
    input whose key values are pairwise distinct; the records kept are
    exactly the first records of the input carrying each key value, in
    first-seen order.  On the three-record example it keeps the first two. *)
Theorem remove_duplicates_by_key (rt : PyRuntime) (data : list record)
  (key : string) :
  key ≠ "" →
  let out := remove_duplicates rt data (Some key) in
  sublist out data
  ∧ (∀ i j r s, i < j → out !! i = Some r → out !! j = Some s →
       py_eq (dict_get r key) (dict_get s key) = false)
  ∧ (∀ r, r ∈ out ↔ ∃ v, r !! key = Some v ∧ first_with key v data = Some r)
  ∧ remove_duplicates rt
      [ {[ "id" := VInt 1; "v" := VStr "a" ]};
        {[ "id" := VInt 2; "v" := VStr "b" ]};
        {[ "id" := VInt 1; "v" := VStr "c" ]} ] (Some "id")
    = [ {[ "id" := VInt 1; "v" := VStr "a" ]};
        {[ "id" := VInt 2; "v" := VStr "b" ]} ].
Proof.
  intros Hkey out. subst out. unfold remove_duplicates.
  destruct key as [|c key]; [done|]. simpl truthy_str. cbv iota.
  split; [apply remove_duplicates_loop_sublist|].
  split; [intros i j r s; apply remove_duplicates_loop_distinct|].
  split; [|vm_compute; reflexivity].
  intros r. rewrite remove_duplicates_loop_elem. simpl.
  split; intros (v & ? & ?); exists v; tauto.
Qed.

Lemma remove_duplicates_by_key_witness :
  "id" ≠ ""
  ∧ sublist
      (remove_duplicates
         {| float_of_str := λ _, None; set_iter := λ l, l |}
         [ {[ "id" := VInt 1 ]}; {[ "id" := VInt 1; "v" := VStr "c" ]} ]
         (Some "id"))
      [ {[ "id" := VInt 1 ]}; {[ "id" := VInt 1; "v" := VStr "c" ]} ].
Proof.
  assert ("id" ≠ "") as Hne by discriminate.
  split; [exact Hne|].
  exact (proj1 (remove_duplicates_by_key
                  {| float_of_str := λ _, None; set_iter := λ l, l |}
                  [ {[ "id" := VInt 1 ]}; {[ "id" := VInt 1; "v" := VStr "c" ]} ]
                  "id" Hne)).
Defined.

(** C10. With a key given, a record that does not contain the key never
    appears in the output of [remove_duplicates]. *)
Theorem remove_duplicates_drops_keyless (rt : PyRuntime) (data : list record)
  (key : string) (r : record) :
  key ≠ "" → r !! key = None →
  r ∉ remove_duplicates rt data (Some key).
Proof.
  intros Hkey Hr Hin. unfold remove_duplicates in Hin.
  destruct key as [|c key]; [done|]. simpl truthy_str in Hin. cbv iota in Hin.
  apply remove_duplicates_loop_elem in Hin as (v & Hv & _). congruence.
Qed.

Lemma remove_duplicates_drops_keyless_witness :
  "id" ≠ ""
  ∧ ({[ "v" := VStr "x" ]} : record) !! "id" = None
  ∧ ({[ "v" := VStr "x" ]} : record)
      ∉ remove_duplicates
          {| float_of_str := λ _, None; set_iter := λ l, l |}
          [ {[ "v" := VStr "x" ]}; {[ "id" := VInt 7 ]} ] (Some "id").
Proof.
  assert ("id" ≠ "") as Hne by discriminate.
  assert (({[ "v" := VStr "x" ]} : record) !! "id" = None) as Hk by reflexivity.
  split; [exact Hne|]. split; [exact Hk|].
  exact (remove_duplicates_drops_keyless
           {| float_of_str := λ _, None; set_iter := λ l, l |}
           [ {[ "v" := VStr "x" ]}; {[ "id" := VInt 7 ]} ] "id" _ Hne Hk).
Defined.

(** ** Order statistics on rational lists *)

Lemma Qlt_bool_iff (x y : Q) : Qlt_bool x y = true ↔ (x < y)%Q.
Proof.
  unfold Qlt_bool. rewrite negb_true_iff, <- not_true_iff_false, Qle_bool_iff.
  split; [apply Qnot_le_lt | apply Qlt_not_le].
Qed.


Section InsertionSort.

Lemma insert_sorted_perm (x : Q) (l : list Q) :
  Permutation (x :: l) (insert_sorted x l).
Proof.
  induction l as [|y l IH]; simpl; [reflexivity|].
  destruct (Qle_bool x y); [reflexivity|].
  rewrite perm_swap. by constructor.
Qed.

Lemma sorted_perm (l : list Q) : Permutation l (sorted l).
Proof.
  induction l as [|x l IH]; simpl; [constructor|].
  rewrite <- insert_sorted_perm. by constructor.
Qed.




Lemma sorted_length (l : list Q) : length (sorted l) = length l.
Proof. symmetry. apply Permutation_length, sorted_perm. Qed.

End InsertionSort.

Section Counting.


Lemma filter_length_perm {A} (p : A → bool) (l l' : list A) :
  Permutation l l' → length (List.filter p l) = length (List.filter p l').
Proof.
  induction 1 as [|x l l' _ IH|x y l|l l' l'' _ IH1 _ IH2]; simpl.
  - reflexivity.
  - destruct (p x); simpl; lia.
  - destruct (p x), (p y); reflexivity.
  - lia.
Qed.

Lemma filter_length_none {A} (p : A → bool) (l : list A) :
  (∀ x, In x l → p x = false) → length (List.filter p l) = 0.
Proof.
  induction l as [|x l IH]; simpl; intros H; [reflexivity|].
  rewrite (H x) by auto. apply IH. auto.
Qed.




End Counting.

(** ** [calculate_median] *)



(** ** [get_numeric_values] and [get_statistics] *)

Lemma get_numeric_values_loop_acc (rt : PyRuntime) (fl : FloatRuntime)
  (data : list record) (key : string) (values : list pyfloat) :
  get_numeric_values_loop rt fl data key values
  = if has_overflow data key then Raises OverflowError
    else Returns (values ++ numeric_projection rt fl data key).
Proof.
  unfold numeric_projection, has_overflow.
  revert values. induction data as [|item rest IH]; intros values; simpl.
  - by rewrite app_nil_r.
  - destruct (item !! key) as [v|]; simpl; [|apply IH].
    destruct v as [|b|z|q|s]; simpl; try apply IH.
    + rewrite IH. destruct (existsb _ rest); [reflexivity|].
      by rewrite <- app_assoc.
    + destruct (float_overflows z); simpl; [reflexivity|].
      rewrite IH. destruct (existsb _ rest); [reflexivity|].
      by rewrite <- app_assoc.
    + rewrite IH. destruct (existsb _ rest); [reflexivity|].
      by rewrite <- app_assoc.
    + destruct (float_of_str rt s); [|apply IH].
      rewrite IH. destruct (existsb _ rest); [reflexivity|].
      by rewrite <- app_assoc.
Qed.

Lemma get_numeric_values_projection (rt : PyRuntime) (fl : FloatRuntime)
  (data : list record) (key : string) :
  get_numeric_values rt fl data key
  = if has_overflow data key then Raises OverflowError
    else Returns (numeric_projection rt fl data key).
Proof. apply get_numeric_values_loop_acc. Qed.

Lemma has_overflow_true (data : list record) (key : string) :
  has_overflow data key = true
  ↔ ∃ item z, item ∈ data ∧ item !! key = Some (VInt z)
              ∧ float_overflows z = true.
Proof.
  unfold has_overflow. rewrite existsb_exists. split.
  - intros (item & Hin & H). destruct (item !! key) as [[| |z| |]|] eqn:E;
      try discriminate.
    exists item, z. by rewrite list_elem_of_In.
  - intros (item & z & Hin & E & H). exists item.
    rewrite <- list_elem_of_In. by rewrite E.
Qed.

(** A value is in the projection exactly when some record holds the key
    with a value that coerces to it. *)
Lemma numeric_projection_elem (rt : PyRuntime) (fl : FloatRuntime)
  (data : list record) (key : string) (x : pyfloat) :
  x ∈ numeric_projection rt fl data key
  ↔ ∃ item v, item ∈ data ∧ item !! key = Some v
              ∧ py_float rt fl v = FloatOk x.
Proof.
  unfold numeric_projection. rewrite list_elem_of_omap. split.
  - intros (item & Hin & H). destruct (item !! key) as [v|] eqn:E; [|done].
    destruct (py_float rt fl v) eqn:Ev; try done. injection H as ->. eauto.
  - intros (item & v & Hin & E & H). exists item. split; [exact Hin|].
    by rewrite E, H.
Qed.

(** *** The order of floats *)

Lemma float_lt_irrefl (x : pyfloat) : float_lt x x = false.
Proof.
  destruct x as [a|[]|]; simpl; try reflexivity.
  apply not_true_iff_false. rewrite Qlt_bool_iff. apply Qlt_irrefl.
Qed.

(** When [y'] is strictly below [m], whatever is not below [m] is not
    below [y'] either. *)
Lemma float_lt_below (y y' m : pyfloat) :
  float_lt y' m = true → float_lt y m = false → float_lt y y' = false.
Proof.
  destruct y as [a|[]|], y' as [b|[]|], m as [c|[]|]; simpl;
    try congruence; try discriminate.
  intros Hbc Hac. apply not_true_iff_false. intros Hab.
  apply not_true_iff_false in Hac. apply Hac.
  apply Qlt_bool_iff in Hbc, Hab. apply Qlt_bool_iff. lra.
Qed.

Lemma float_lt_above (y y' m : pyfloat) :
  float_lt m y' = true → float_lt m y = false → float_lt y' y = false.
Proof.
  destruct y as [a|[]|], y' as [b|[]|], m as [c|[]|]; simpl;
    try congruence; try discriminate.
  intros Hcb Hca. apply not_true_iff_false. intros Hba.
  apply not_true_iff_false in Hca. apply Hca.
  apply Qlt_bool_iff in Hcb, Hba. apply Qlt_bool_iff. lra.
Qed.

Lemma py_min_inv (seen rest : list pyfloat) (m : pyfloat) :
  m ∈ seen → (∀ y, y ∈ seen → float_lt y m = false) →
  let r := fold_left (λ m y, if float_lt y m then y else m) rest m in
  r ∈ seen ++ rest ∧ ∀ y, y ∈ seen ++ rest → float_lt y r = false.
Proof.
  revert seen m. induction rest as [|z rest IH]; intros seen m Hm Hseen.
  - simpl. by rewrite app_nil_r.
  - simpl fold_left. cbv zeta.
    replace (seen ++ z :: rest) with ((seen ++ [z]) ++ rest)
      by (by rewrite <- app_assoc).
    apply IH.
    + destruct (float_lt z m); apply elem_of_app; [right; left | by left].
    + intros y [Hy | ->%list_elem_of_singleton]%elem_of_app.
      * destruct (float_lt z m) eqn:E; [|by apply Hseen].
        apply (float_lt_below y z m E). by apply Hseen.
      * destruct (float_lt z m) eqn:E; [apply float_lt_irrefl | exact E].
Qed.

Lemma py_max_inv (seen rest : list pyfloat) (m : pyfloat) :
  m ∈ seen → (∀ y, y ∈ seen → float_lt m y = false) →
  let r := fold_left (λ m y, if float_lt m y then y else m) rest m in
  r ∈ seen ++ rest ∧ ∀ y, y ∈ seen ++ rest → float_lt r y = false.
Proof.
  revert seen m. induction rest as [|z rest IH]; intros seen m Hm Hseen.
  - simpl. by rewrite app_nil_r.
  - simpl fold_left. cbv zeta.
    replace (seen ++ z :: rest) with ((seen ++ [z]) ++ rest)
      by (by rewrite <- app_assoc).
    apply IH.
    + destruct (float_lt m z); apply elem_of_app; [right; left | by left].
    + intros y [Hy | ->%list_elem_of_singleton]%elem_of_app.
      * destruct (float_lt m z) eqn:E; [|by apply Hseen].
        apply (float_lt_above y z m E). by apply Hseen.
      * destruct (float_lt m z) eqn:E; [apply float_lt_irrefl | exact E].
Qed.

(** [min] returns an element below which there is none, [max] one above
    which there is none. *)
Lemma py_min_spec (x : pyfloat) (rest : list pyfloat) :
  py_min x rest ∈ x :: rest
  ∧ ∀ y, y ∈ x :: rest → float_lt y (py_min x rest) = false.
Proof.
  apply (py_min_inv [x] rest x); [left|].
  intros y ->%list_elem_of_singleton. apply float_lt_irrefl.
Qed.

Lemma py_max_spec (x : pyfloat) (rest : list pyfloat) :
  py_max x rest ∈ x :: rest
  ∧ ∀ y, y ∈ x :: rest → float_lt (py_max x rest) y = false.
Proof.
  apply (py_max_inv [x] rest x); [left|].
  intros y ->%list_elem_of_singleton. apply float_lt_irrefl.
Qed.

Lemma calculate_median_float_is_Some (fl : FloatRuntime)
  (x : pyfloat) (rest : list pyfloat) :
  ∃ med, calculate_median_float fl (x :: rest) = Some med.
Proof.
  unfold calculate_median_float.
  destruct (length (float_sorted fl (x :: rest)) mod 2 =? 0); eauto.
Qed.

(** On finite values, and where nothing is rounded, the median of floats
    is [calculate_median]. *)
Lemma float_insert_finite (x : Q) (l : list Q) :
  float_insert (FFin x) (map FFin l) = map FFin (insert_sorted x l).
Proof.
  induction l as [|y l IH]; simpl; [reflexivity|].
  unfold Qlt_bool. rewrite negb_involutive.
  destruct (Qle_bool x y); simpl; [reflexivity|]. by rewrite IH.
Qed.

Lemma float_sorted_finite (fl : FloatRuntime) (l : list Q) :
  float_sorted fl (map FFin l) = map FFin (sorted l).
Proof.
  unfold float_sorted.
  assert (existsb is_nan (map FFin l) = false) as ->
    by (induction l; simpl; auto).
  induction l as [|x l IH]; simpl; [reflexivity|].
  by rewrite IH, float_insert_finite.
Qed.

Lemma calculate_median_float_finite (fl : FloatRuntime) (l : list Q) :
  (∀ q, round fl q = FFin q) →
  calculate_median_float fl (map FFin l) = FFin <$> calculate_median l.
Proof.
  intros Hexact. destruct l as [|x l]; [reflexivity|].
  unfold calculate_median_float, calculate_median.
  change (map FFin (x :: l)) with (FFin x :: map FFin l).
  change (FFin x :: map FFin l) with (map FFin (x :: l)).
  rewrite float_sorted_finite, length_map.
  set (s := sorted (x :: l)). set (n := length s).
  assert (0 < n) as Hn.
  { subst n s. rewrite sorted_length. simpl. lia. }
  assert (n / 2 < n) as Hmid by (apply Nat.div_lt; lia).
  assert (∀ i, i < n → nth i (map FFin s) FNaN = FFin (nth i s 0%Q)) as Hnth.
  { intros i Hi. rewrite (nth_indep _ FNaN (FFin 0)) by (by rewrite length_map).
    apply map_nth. }
  destruct (n mod 2 =? 0).
  - rewrite !Hnth by lia. unfold float_add, float_div.
    rewrite Hexact. rewrite Hexact. reflexivity.
  - by rewrite Hnth.
Qed.

(** C6. [get_statistics] does not leave out every value that fails to
    coerce: an [int] too large for a float makes [float] raise
    [OverflowError], which [get_numeric_values] does not catch, so the
    call ends in that exception, as on the one record that holds 10 ^ 400.
    When no such [int] occurs, the statistics are those of the numeric
    projection: the empty object when it is empty, and otherwise the six
    entries, none of them [None], with the count, the sum, the average,
    the median, an element with none below it and an element with none
    above it. *)
Theorem get_statistics_overflow (rt : PyRuntime) (fl : FloatRuntime)
  (data : list record) (key : string) :
  (∀ item z, item ∈ data → item !! key = Some (VInt z) →
             float_overflows z = true →
             get_statistics rt fl data key = Raises OverflowError)
  ∧ (has_overflow data key = false →
     match numeric_projection rt fl data key with
     | [] => get_statistics rt fl data key = Returns ∅
     | x :: rest =>
         let vs := x :: rest in
         ∃ avg med mn mx : pyfloat,
           get_statistics rt fl data key
           = Returns
               {[ "count" := SInt (Z.of_nat (length vs));
                  "sum" := SFloat (py_sum fl vs);
                  "average" := SFloat avg;
                  "median" := SFloat med;
                  "min" := SFloat mn;
                  "max" := SFloat mx ]}
           ∧ calculate_average fl vs = Some avg
           ∧ calculate_median_float fl vs = Some med
           ∧ (mn ∈ vs ∧ ∀ y, y ∈ vs → float_lt y mn = false)
           ∧ (mx ∈ vs ∧ ∀ y, y ∈ vs → float_lt mx y = false)
     end)
  ∧ get_statistics rt fl [ {[ "x" := VInt (10 ^ 400) ]} ] "x"
    = Raises OverflowError.
Proof.
  split; [|split].
  - intros item z Hin Hkey Hz. unfold get_statistics.
    rewrite get_numeric_values_projection.
    assert (has_overflow data key = true) as ->; [|reflexivity].
    apply has_overflow_true. eauto.
  - intros Hno. unfold get_statistics.
    rewrite get_numeric_values_projection, Hno.
    destruct (numeric_projection rt fl data key) as [|x rest]; [reflexivity|].
    cbv zeta.
    destruct (calculate_median_float_is_Some fl x rest) as [med Hmed].
    exists (float_div fl (py_sum fl (x :: rest))
              (Pos.of_succ_nat (length rest))),
      med, (py_min x rest), (py_max x rest).
    rewrite Hmed. simpl calculate_average. simpl opt_float.
    split; [reflexivity|]. split; [reflexivity|]. split; [reflexivity|].
    split; [apply py_min_spec | apply py_max_spec].
  - unfold get_statistics. rewrite get_numeric_values_projection.
    assert (has_overflow [ {[ "x" := VInt (10 ^ 400) ]} ] "x" = true) as ->;
      [|reflexivity].
    vm_compute. reflexivity.
Qed.

(** The three parts at concrete record lists: an [int] of 2 ^ 1024 next
    to a small one, and four records of which two coerce. *)
Lemma get_statistics_overflow_witness :
  let rt := {| float_of_str := λ _, None; set_iter := λ l, l |} in
  let big : list record :=
    [ {[ "p" := VInt 1 ]}; {[ "p" := VInt (2 ^ 1024) ]} ] in
  let data : list record :=
    [ {[ "p" := VInt 3 ]}; {[ "q" := VInt 9 ]}; {[ "p" := VStr "n/a" ]};
      {[ "p" := VFloat 1 ]} ] in
  get_statistics rt exact_floats big "p" = Raises OverflowError
  ∧ has_overflow data "p" = false
  ∧ ∃ avg med mn mx : pyfloat,
      get_statistics rt exact_floats data "p"
      = Returns
          {[ "count" := SInt 2; "sum" := SFloat (FFin 4);
             "average" := SFloat avg; "median" := SFloat med;
             "min" := SFloat mn; "max" := SFloat mx ]}
      ∧ calculate_average exact_floats [FFin 3; FFin 1] = Some avg
      ∧ calculate_median_float exact_floats [FFin 3; FFin 1] = Some med
      ∧ (mn ∈ [FFin 3; FFin 1]
         ∧ ∀ y, y ∈ [FFin 3; FFin 1] → float_lt y mn = false)
      ∧ (mx ∈ [FFin 3; FFin 1]
         ∧ ∀ y, y ∈ [FFin 3; FFin 1] → float_lt mx y = false).
Proof.
  intros rt big data.
  assert (({[ "p" := VInt (2 ^ 1024) ]} : record) ∈ big) as Hin
    by (right; left).
  assert (({[ "p" := VInt (2 ^ 1024) ]} : record) !! "p"
          = Some (VInt (2 ^ 1024))) as Hkey by reflexivity.
  assert (float_overflows (2 ^ 1024) = true) as Hz by (vm_compute; reflexivity).
  assert (has_overflow data "p" = false) as Hno by (vm_compute; reflexivity).
  split; [|split; [exact Hno|]].
  - exact (proj1 (get_statistics_overflow rt exact_floats big "p")
             _ _ Hin Hkey Hz).
  - exact (proj1 (proj2 (get_statistics_overflow rt exact_floats data "p"))
             Hno).
Defined.

Example get_statistics_examples :
  let rt := {| float_of_str := λ s, if String.eqb s "nan" then Some FNaN
                                    else None;
               set_iter := λ l, l |} in
  get_statistics rt exact_floats
    [ {[ "p" := VInt 3 ]}; {[ "q" := VInt 9 ]}; {[ "p" := VStr "n/a" ]};
      {[ "p" := VNone ]}; {[ "p" := VFloat 1 ]} ] "p"
  = Returns
      {[ "count" := SInt 2; "sum" := SFloat (FFin 4);
         "average" := SFloat (FFin (4 / 2)); "median" := SFloat (FFin (4 / 2));
         "min" := SFloat (FFin 1); "max" := SFloat (FFin 3) ]}
  ∧ get_statistics rt exact_floats [ {[ "p" := VStr "n/a" ]} ] "p" = Returns ∅
  ∧ get_statistics rt exact_floats
      [ {[ "p" := VStr "nan" ]}; {[ "p" := VInt 2 ]} ] "p"
    = Returns
        {[ "count" := SInt 2; "sum" := SFloat FNaN;
           "average" := SFloat FNaN; "median" := SFloat FNaN;
           "min" := SFloat FNaN; "max" := SFloat FNaN ]}
  ∧ get_statistics rt exact_floats
      [ {[ "p" := VInt 1 ]}; {[ "p" := VInt (2 ^ 1024) ]} ] "p"
    = Raises OverflowError.
Proof. vm_compute. auto. Qed.

(** ** Whitespace normalisation *)

Section Whitespace.

Context {A : Type} (ws : A → bool) (sp : A).
Hypothesis ws_sp : ws sp = true.

Lemma sub_ws_Norm (b : bool) (l : list A) : Norm ws sp b (sub_ws ws sp b l).
Proof.
  revert b. induction l as [|c l IH]; intros b; simpl; [constructor|].
  destruct (ws c) eqn:E.
  - destruct b; [apply IH|]. constructor. apply IH.
  - by constructor.
Qed.

Lemma Norm_weaken (b : bool) (l : list A) :
  Norm ws sp true l → Norm ws sp b l.
Proof. inversion 1; subst; by constructor. Qed.

Lemma Norm_sub_ws (b : bool) (l : list A) :
  Norm ws sp b l → sub_ws ws sp b l = l.
Proof.
  induction 1 as [b|l _ IH|b c l Hc _ IH]; simpl.
  - reflexivity.
  - by rewrite ws_sp, IH.
  - by rewrite Hc, IH.
Qed.

Lemma Norm_lstrip_id (l : list A) : Norm ws sp true l → lstrip ws l = l.
Proof. inversion 1 as [| |b c l' Hc]; subst; simpl; [done|]. by rewrite Hc. Qed.

Lemma Norm_lstrip (b : bool) (l : list A) :
  Norm ws sp b l → Norm ws sp true (lstrip ws l).
Proof.
  destruct 1 as [b|l H|b c l Hc H]; simpl.
  - constructor.
  - rewrite ws_sp. by rewrite Norm_lstrip_id.
  - rewrite Hc. by constructor.
Qed.

Lemma rstrip_cons_char (c : A) (l : list A) :
  ws c = false → rstrip ws (c :: l) = c :: rstrip ws l.
Proof. intros Hc. simpl. rewrite Hc. by destruct (rstrip ws l). Qed.

Lemma Norm_rstrip (b : bool) (l : list A) :
  Norm ws sp b l → Norm ws sp b (rstrip ws l).
Proof.
  induction 1 as [b|l _ IH|b c l Hc _ IH].
  - constructor.
  - simpl. rewrite ws_sp.
    destruct (rstrip ws l) eqn:E; [constructor|]. by constructor.
  - rewrite rstrip_cons_char by done. by constructor.
Qed.

Lemma rstrip_cons_nonempty (c : A) (l : list A) :
  rstrip ws l ≠ [] → rstrip ws (c :: l) = c :: rstrip ws l.
Proof. intros H. simpl. by destruct (rstrip ws l). Qed.

Lemma rstrip_idemp (l : list A) : rstrip ws (rstrip ws l) = rstrip ws l.
Proof.
  induction l as [|c l IH]; [reflexivity|].
  destruct (rstrip ws l) as [|r0 r] eqn:E.
  - simpl. rewrite E. destruct (ws c) eqn:Hc; simpl; [reflexivity|].
    by rewrite Hc.
  - rewrite (rstrip_cons_nonempty c l) by (by rewrite E).
    rewrite E. rewrite rstrip_cons_nonempty; by rewrite IH.
Qed.

(** A text made of [sub_ws] followed by [strip] is a fixed point of both. *)
Lemma strip_sub_ws_Norm (l : list A) :
  Norm ws sp true (strip ws (sub_ws ws sp false l)).
Proof.
  unfold strip. apply Norm_rstrip.
  apply Norm_lstrip with false, sub_ws_Norm.
Qed.

Lemma strip_sub_ws_idemp (l : list A) :
  let m := strip ws (sub_ws ws sp false l) in
  strip ws (sub_ws ws sp false m) = m.
Proof.
  intros m. pose proof (strip_sub_ws_Norm l) as Hm. fold m in Hm.
  rewrite (Norm_sub_ws false m) by (by apply Norm_weaken).
  unfold strip. rewrite (Norm_lstrip_id m Hm).
  subst m. unfold strip. apply rstrip_idemp.
Qed.

(** A right-stripped text does not end with whitespace. *)
Lemma rstrip_last (l : list A) (c : A) :
  last (rstrip ws l) = Some c → ws c = false.
Proof.
  induction l as [|d l IH]; simpl; [done|].
  destruct (rstrip ws l) as [|r0 r] eqn:E.
  - destruct (ws d) eqn:Hd; [done|]. intros [= <-]. exact Hd.
  - intros H. apply IH. exact H.
Qed.

End Whitespace.

(** ** [clean_text] *)

Lemma isspace_space : isspace space = true.
Proof. reflexivity. Qed.

(** C9. [clean_text] is idempotent.  Its result is normalised: every
    whitespace character in it is a single space standing alone, and it
    neither starts nor ends with whitespace; empty and absent input give
    the empty string. *)
Theorem clean_text_idempotent (text : option string) :
  clean_text (Some (clean_text text)) = clean_text text
  ∧ Norm isspace space true (String.list_ascii_of_string (clean_text text))
  ∧ (∀ c, last (String.list_ascii_of_string (clean_text text)) = Some c →
          isspace c = false)
  ∧ clean_text None = "" ∧ clean_text (Some "") = "".
Proof.
  assert (∀ s, String.list_ascii_of_string (clean_text (Some s))
               = strip isspace (sub_ws isspace space false
                                  (String.list_ascii_of_string s))) as Hlist.
  { intros s. unfold clean_text. destruct s as [|c s]; [reflexivity|].
    simpl truthy_opt_str. cbv iota. simpl negb. cbv iota.
    apply String.list_ascii_of_string_of_list_ascii. }
  assert (∀ s, clean_text (Some (clean_text (Some s))) = clean_text (Some s))
    as Hidem.
  { intros s.
    rewrite <- (String.string_of_list_ascii_of_string (clean_text (Some s))) at 2.
    rewrite <- (String.string_of_list_ascii_of_string
                  (clean_text (Some (clean_text (Some s))))).
    f_equal. rewrite Hlist, Hlist.
    apply (strip_sub_ws_idemp isspace space isspace_space). }
  split; [|split; [|split; [|split; reflexivity]]].
  - destruct text as [s|]; [apply Hidem | reflexivity].
  - destruct text as [s|]; [|constructor].
    rewrite Hlist. apply (strip_sub_ws_Norm isspace space isspace_space).
  - destruct text as [s|]; [|done].
    rewrite Hlist. apply rstrip_last.
Qed.

Example clean_text_example :
  clean_text (Some (String "009" (String "010" "  Hello,
     world " +:+ String "160" "and  more  ")))
  = "Hello, world and more".
Proof. vm_compute. reflexivity. Qed.

(** ** [extract_by_selector_attr] *)

Lemma extract_by_selector_attr_loop_acc (elements : list Tag) (a : string)
  (values : list AttrVal) :
  extract_by_selector_attr_loop elements a values
  = values ++ omap (λ el, v ← tag_get el a; if truthy_attr v then Some v else None)
                elements.
Proof.
  revert values. induction elements as [|el rest IH]; intros values; simpl.
  - by rewrite app_nil_r.
  - destruct (tag_get el a) as [v|]; simpl; [|apply IH].
    destruct (truthy_attr v); [|apply IH].
    by rewrite IH, <- app_assoc.
Qed.

(** In [HTMLParser.extract_by_selector_attr] an element without the
    attribute contributes no value: every value comes from an element that
    has the attribute. *)
Lemma extract_by_selector_attr_skips (bs : Bs4) (self : HTMLParser)
  (selector a : string) (v : AttrVal) :
  v ∈ extract_by_selector_attr bs self selector a →
  ∃ el, el ∈ css_select bs (soup self) selector ∧ tag_get el a = Some v.
Proof.
  unfold extract_by_selector_attr.
  rewrite extract_by_selector_attr_loop_acc. simpl.
  rewrite list_elem_of_omap. intros (el & Hin & H). exists el.
  split; [exact Hin|]. destruct (tag_get el a) as [w|]; [|done].
  simpl in H. destruct (truthy_attr w); congruence.
Qed.

(** ** [extract_items] *)

Lemma extract_items_loop_acc (urljoin : string → string → string)
  (base : string) (attr_name : option string) (elements : list Tag)
  (results : list ExtractedItem) :
  extract_items_loop urljoin base attr_name elements results
  = results ++ map (extract_item urljoin base attr_name) elements.
Proof.
  revert results. induction elements as [|el rest IH]; intros results; simpl.
  - by rewrite app_nil_r.
  - by rewrite IH, <- app_assoc.
Qed.

Lemma extract_items_map (bs : Bs4) (urljoin : string → string → string)
  (html base selector : string) (attr_name : option string) :
  extract_items bs urljoin html base selector attr_name
  = map (extract_item urljoin base attr_name)
      (css_select bs (soup_parse bs html) selector).
Proof. unfold extract_items. apply extract_items_loop_acc. Qed.

Lemma extract_item_missing_attr (urljoin : string → string → string)
  (base a : string) (el : Tag) :
  a ≠ "" → tag_get el a = None →
  extract_item urljoin base (Some a) el
  = {| source_url := base; text := None; attr := None |}.
Proof.
  intros Ha Hget. unfold extract_item.
  destruct a as [|c a]; [done|]. simpl. by rewrite Hget.
Qed.

(** C1. In attribute mode [extract_items] emits one item for every matched
    node, also for a node that lacks the attribute: that node yields an
    item whose [attr] is [None].  The node is not skipped. *)
Theorem extract_items_keeps_missing_attr (bs : Bs4)
  (urljoin : string → string → string) (html base selector a : string)
  (el : Tag) :
  a ≠ "" →
  el ∈ css_select bs (soup_parse bs html) selector →
  tag_get el a = None →
  length (extract_items bs urljoin html base selector (Some a))
  = length (css_select bs (soup_parse bs html) selector)
  ∧ {| source_url := base; text := None; attr := None |}
      ∈ extract_items bs urljoin html base selector (Some a).
Proof.
  intros Ha Hin Hget. rewrite extract_items_map. split.
  - apply length_map.
  - rewrite <- (extract_item_missing_attr urljoin base a el Ha Hget).
    by apply list_elem_of_fmap_2.
Qed.

(** C2. No item of [extract_items] has both fields populated: without an
    attribute name the text is populated and [attr] is absent, with one
    the text is absent.  But [attr] is then not always populated: a
    matched node that lacks the attribute gives an item with both fields
    absent. *)
Theorem extract_items_fields (bs : Bs4) (urljoin : string → string → string)
  (html base selector : string) (attr_name : option string) :
  (∀ it, it ∈ extract_items bs urljoin html base selector attr_name →
     (text it = None ∨ attr it = None)
     ∧ (truthy_opt_str attr_name = false → is_Some (text it) ∧ attr it = None)
     ∧ (truthy_opt_str attr_name = true → text it = None))
  ∧ (∀ a el, attr_name = Some a → a ≠ "" →
       el ∈ css_select bs (soup_parse bs html) selector →
       tag_get el a = None →
       ∃ it, it ∈ extract_items bs urljoin html base selector attr_name
             ∧ text it = None ∧ attr it = None).
Proof.
  rewrite extract_items_map. split.
  - intros it (el & -> & _)%list_elem_of_fmap. unfold extract_item.
    destruct (truthy_opt_str attr_name); simpl.
    + split; [by left|]. split; [done|]. done.
    + split; [by right|]. split; [eauto|done].
  - intros a el -> Ha Hin Hget.
    exists (extract_item urljoin base (Some a) el).
    split; [by apply list_elem_of_fmap_2|].
    by rewrite (extract_item_missing_attr urljoin base a el Ha Hget).
Qed.

Lemma extract_items_keeps_missing_attr_witness :
  "href" ≠ ""
  ∧ mkTag "a" {[ "class" := AList ["link"] ]} [PString "first"]
      ∈ css_select (tag_engine links_doc)
          (soup_parse (tag_engine links_doc) "") "a"
  ∧ tag_get (mkTag "a" {[ "class" := AList ["link"] ]} [PString "first"]) "href"
    = None
  ∧ {| source_url := "https://example.com"; text := None; attr := None |}
      ∈ extract_items (tag_engine links_doc) concat_urljoin ""
          "https://example.com" "a" (Some "href").
Proof.
  assert ("href" ≠ "") as Hne by discriminate.
  assert (mkTag "a" {[ "class" := AList ["link"] ]} [PString "first"]
            ∈ css_select (tag_engine links_doc)
                (soup_parse (tag_engine links_doc) "") "a") as Hin
    by (vm_compute; apply list_elem_of_here).
  assert (tag_get (mkTag "a" {[ "class" := AList ["link"] ]} [PString "first"])
            "href" = None) as Hget by reflexivity.
  split; [exact Hne|]. split; [exact Hin|]. split; [exact Hget|].
  exact (proj2 (extract_items_keeps_missing_attr (tag_engine links_doc)
                  concat_urljoin "" "https://example.com" "a" "href" _
                  Hne Hin Hget)).
Defined.

Example extract_items_links :
  extract_items (tag_engine links_doc) concat_urljoin ""
    "https://example.com" "a" (Some "href")
  = [ {| source_url := "https://example.com"; text := None; attr := None |};
      {| source_url := "https://example.com"; text := None;
         attr := Some (AStr "https://example.com/p") |} ]
  ∧ extract_by_selector_attr (tag_engine links_doc)
      (HTMLParser_init (tag_engine links_doc) "" "https://example.com")
      "a" "href"
    = [ AStr "/p" ]
  ∧ extract_items (tag_engine links_doc) concat_urljoin ""
      "https://example.com" "a" None
    = [ {| source_url := "https://example.com"; text := Some "first";
           attr := None |};
        {| source_url := "https://example.com"; text := Some "second";
           attr := None |} ].
Proof. vm_compute. auto. Qed.

(** ** [extract_table] *)

Lemma extract_table_loop_acc (headers : list string) (rows : list Tag)
  (data : list (gmap string string)) :
  extract_table_loop headers rows data
  = data ++ map (λ row, dict_zip headers (row_cells row))
              (List.filter
                 (λ row, length (find_all row ["td"]) =? length headers) rows).
Proof.
  revert data. induction rows as [|row rest IH]; intros data; simpl.
  - by rewrite app_nil_r.
  - destruct (length (find_all row ["td"]) =? length headers); [|apply IH].
    rewrite IH, <- app_assoc. reflexivity.
Qed.

Lemma fold_insert_dom (l : list (string * string)) (m : gmap string string) :
  dom (fold_left (λ m kv, <[kv.1 := kv.2]> m) l m)
  = dom m ∪ list_to_set l.*1.
Proof.
  revert m. induction l as [|[k v] l IH]; intros m; simpl.
  - by rewrite union_empty_r_L.
  - rewrite IH, dom_insert_L.
    by rewrite (union_comm_L {[k]} (dom m)), <- union_assoc_L.
Qed.

Lemma fold_insert_notin (l : list (string * string)) (m : gmap string string)
  (h : string) :
  h ∉ l.*1 → fold_left (λ m kv, <[kv.1 := kv.2]> m) l m !! h = m !! h.
Proof.
  revert m. induction l as [|[k v] l IH]; intros m Hh; simpl; [done|].
  simpl in Hh. apply not_elem_of_cons in Hh as [Hk Hh].
  rewrite IH by done. by apply lookup_insert_ne.
Qed.

Lemma fold_insert_lookup (l : list (string * string)) (m : gmap string string)
  (h c : string) :
  NoDup l.*1 → (h, c) ∈ l →
  fold_left (λ m kv, <[kv.1 := kv.2]> m) l m !! h = Some c.
Proof.
  revert m. induction l as [|[k v] l IH]; intros m Hnd Hin; simpl.
  - by apply elem_of_nil in Hin.
  - simpl in Hnd. apply NoDup_cons in Hnd as [Hk Hnd].
    apply elem_of_cons in Hin as [[= -> ->]|Hin].
    + rewrite fold_insert_notin by done. apply lookup_insert_eq.
    + by apply IH.
Qed.

(** A record built from as many cells as there are headers is keyed by
    the header labels. *)
Lemma dict_zip_dom (headers cells : list string) :
  length cells = length headers →
  dom (dict_zip headers cells) = list_to_set headers.
Proof.
  intros Hlen. unfold dict_zip. rewrite fold_insert_dom.
  rewrite fst_zip by lia. by rewrite dom_empty_L, union_empty_l_L.
Qed.

(** With distinct header labels, the cell at index [i] is filed under the
    header at index [i]. *)
Lemma dict_zip_lookup (headers cells : list string) (i : nat) (h c : string) :
  NoDup headers → length cells = length headers →
  headers !! i = Some h → cells !! i = Some c →
  dict_zip headers cells !! h = Some c.
Proof.
  intros Hnd Hlen Hh Hc. unfold dict_zip. apply fold_insert_lookup.
  - by rewrite fst_zip by lia.
  - apply list_elem_of_lookup. exists i. rewrite lookup_zip_with.
    by rewrite Hh, Hc.
Qed.

(** C8. [extract_table] departs from the table extraction as it is
    described, in two ways.  A data row is measured by its [td] cells only,
    while the header is measured by its [th] and [td] cells: a row with as
    many cells as there are labels, one of them a [th], is left out though
    it should become a record.  And with a header section the rows of that
    section are examined as data rows: when its cells are [td] cells, the
    header comes back as a record. *)
Theorem extract_table_differs (bs : Bs4) (self : HTMLParser)
  (table_selector : string) :
  (∀ table row0 row,
     select_one bs (soup self) table_selector = Some table →
     find table "thead" = None →
     find_all table ["tr"] = [row0; row] →
     length (find_all row ["th"; "td"]) = length (find_all row0 ["th"; "td"]) →
     length (find_all row ["td"]) ≠ length (find_all row ["th"; "td"]) →
     extract_table bs self table_selector = []
     ∧ described_extract_table bs self table_selector
       = [ dict_zip (described_cells row0) (described_cells row) ])
  ∧ (extract_table (tag_engine rowhead_doc)
       (HTMLParser_init (tag_engine rowhead_doc) "" "") "table" = []
     ∧ described_extract_table (tag_engine rowhead_doc)
         (HTMLParser_init (tag_engine rowhead_doc) "" "") "table"
       = [ {[ "Name" := "Tea"; "Price" := "3.50" ]} ])
  ∧ (extract_table (tag_engine thead_doc)
       (HTMLParser_init (tag_engine thead_doc) "" "") "table"
     = [ {[ "Name" := "Name"; "Price" := "Price" ]};
         {[ "Name" := "Tea"; "Price" := "3.50" ]} ]
     ∧ described_extract_table (tag_engine thead_doc)
         (HTMLParser_init (tag_engine thead_doc) "" "") "table"
       = [ {[ "Name" := "Tea"; "Price" := "3.50" ]} ]).
Proof.
  split; [|split; split; vm_compute; reflexivity].
  intros table row0 row Hsel Hthead Hrows Hcells Htd.
  unfold extract_table, described_extract_table.
  rewrite Hsel, Hthead, Hrows. unfold described_cells.
  rewrite extract_table_loop_acc. simpl.
  rewrite !length_map.
  assert ((length (find_all row ["td"])
           =? length (find_all row0 ["th"; "td"])) = false) as ->
    by (apply Nat.eqb_neq; congruence).
  assert ((length (find_all row ["th"; "td"])
           =? length (find_all row0 ["th"; "td"])) = true) as ->
    by (by apply Nat.eqb_eq).
  split; reflexivity.
Qed.

(** The general part on the table whose second row starts with a [th]
    cell. *)
Lemma extract_table_differs_witness :
  let bs := tag_engine rowhead_doc in
  let self := HTMLParser_init bs "" "" in
  let row0 :=
    mkTag "tr" ∅
      [ PTag (mkTag "th" ∅ [PString "Name"]);
        PTag (mkTag "th" ∅ [PString "Price"]) ] in
  let row :=
    mkTag "tr" ∅
      [ PTag (mkTag "th" ∅ [PString "Tea"]);
        PTag (mkTag "td" ∅ [PString "3.50"]) ] in
  select_one bs (soup self) "table" = Some rowhead_table
  ∧ find rowhead_table "thead" = None
  ∧ find_all rowhead_table ["tr"] = [row0; row]
  ∧ length (find_all row ["th"; "td"]) = 2
  ∧ length (find_all row ["td"]) = 1
  ∧ extract_table bs self "table" = []
  ∧ described_extract_table bs self "table"
    = [ dict_zip (described_cells row0) (described_cells row) ].
Proof.
  intros bs self row0 row.
  assert (select_one bs (soup self) "table" = Some rowhead_table) as Hsel
    by reflexivity.
  assert (find rowhead_table "thead" = None) as Hthead by reflexivity.
  assert (find_all rowhead_table ["tr"] = [row0; row]) as Hrows
    by reflexivity.
  assert (length (find_all row ["th"; "td"])
          = length (find_all row0 ["th"; "td"])) as Hcells by reflexivity.
  assert (length (find_all row ["td"]) ≠ length (find_all row ["th"; "td"]))
    as Htd by (vm_compute; lia).
  split; [exact Hsel|]. split; [exact Hthead|]. split; [exact Hrows|].
  split; [reflexivity|]. split; [reflexivity|].
  exact (proj1 (extract_table_differs bs self "table")
           rowhead_table row0 row Hsel Hthead Hrows Hcells Htd).
Defined.

Lemma extract_table_no_table (bs : Bs4) (self : HTMLParser)
  (table_selector : string) :
  select_one bs (soup self) table_selector = None →
  extract_table bs self table_selector = [].
Proof. intros H. unfold extract_table. by rewrite H. Qed.

(** ** [Fetcher] *)

Lemma Fetcher_init_robots (net : Net) (base : option string) (tmo : Q)
  (tr tr' : list event) (self : Fetcher net) :
  Fetcher_init net base tmo tr = (inl self, tr') →
  base_url self = base ∧ timeout self = tmo
  ∧ _robots self
    = if truthy_opt_str base
      then robots_read net (robots_url_of net (default "" base)) tr
      else None.
Proof.
  unfold Fetcher_init. destruct (truthy_opt_str base).
  - unfold bind, _init_robots, ret. intros [= <- _]. auto.
  - unfold ret. intros [= <- _]. auto.
Qed.

Lemma Fetcher_init_total (net : Net) (base : option string) (tmo : Q)
  (tr : list event) :
  ∃ self tr', Fetcher_init net base tmo tr = (inl self, tr').
Proof.
  unfold Fetcher_init. destruct (truthy_opt_str base);
    unfold bind, _init_robots, ret; eauto.
Qed.

Lemma get_allowed_trace (net : Net) (self : Fetcher net) (url : string)
  (tr : list event) :
  allowed self (target_url self url) = true →
  (get self url tr).2 = tr ++ [HttpGet (target_url self url) (timeout self)].
Proof.
  intros Hal. unfold get. rewrite Hal. unfold bind, http_get. simpl.
  destruct (session_get net (target_url self url) (timeout self) tr)
    as [resp|e]; [|reflexivity].
  unfold raise_for_status.
  destruct ((400 <=? status_code resp)%Z && (status_code resp <? 600)%Z);
    reflexivity.
Qed.

Lemma allowed_false (net : Net) (self : Fetcher net) (url : string) :
  allowed self url = false
  ↔ ∃ rp, _robots self = Some rp ∧ can_fetch net rp user_agent url = false.
Proof.
  unfold allowed. destruct (_robots self) as [rp|].
  - split; [eauto | by intros (? & [= <-] & ?)].
  - split; [done | by intros (? & ? & _)].
Qed.

(** C5. When the loaded robots policy disallows the URL that [get] would
    fetch, [get] fails with [PermissionError] and makes no call to the
    session: no request is issued.  When reading the robots file raised at
    construction, every URL is allowed.  But a load that fails without
    raising is not treated as permissive: when the server answers the
    robots file with status 401, 403 or 500 and above, [read] returns, the
    fetcher keeps the parser, and every URL is denied. *)
Theorem get_robots_gate (net : Net) :
  (∀ (self : Fetcher net) (rp : RobotFileParser net) (url : string)
     (tr : list event),
     _robots self = Some rp →
     can_fetch net rp user_agent (target_url self url) = false →
     get self url tr
     = (inr (PermissionError
               ("robots.txt disallows fetching: " +:+ target_url self url)),
        tr))
  ∧ (∀ (base : option string) (tmo : Q) (tr tr' : list event)
       (self : Fetcher net),
       Fetcher_init net base tmo tr = (inl self, tr') →
       robots_read net (robots_url_of net (default "" base)) tr = None →
       ∀ (url : string) (tr2 : list event),
         allowed self url = true
         ∧ (get self url tr2).2
           = tr2 ++ [HttpGet (target_url self url) tmo])
  ∧ (∀ parse join server session (base : option string) (tmo : Q)
       (tr tr' : list event) (code : Z)
       (self : Fetcher (urllib_net parse join server session)),
       truthy_opt_str base = true →
       server (robots_url_of (urllib_net parse join server session)
                 (default "" base)) = FetchHTTPError code →
       (code = 401 ∨ code = 403 ∨ 500 <= code)%Z →
       Fetcher_init (urllib_net parse join server session) base tmo tr
       = (inl self, tr') →
       ∀ (url : string) (tr2 : list event),
         allowed self url = false
         ∧ get self url tr2
           = (inr (PermissionError
                     ("robots.txt disallows fetching: "
                      +:+ target_url self url)),
              tr2)).
Proof.
  split; [|split].
  - intros self rp url tr Hrp Hdeny.
    assert (allowed self (target_url self url) = false) as Hal
      by (apply allowed_false; eauto).
    unfold get. rewrite Hal. reflexivity.
  - intros base tmo tr tr' self Hinit Hread url tr2.
    apply Fetcher_init_robots in Hinit as (_ & Htmo & Hrob).
    rewrite Hread in Hrob.
    assert (∀ u, allowed self u = true) as Hal.
    { intros u. unfold allowed. rewrite Hrob.
      by destruct (truthy_opt_str base). }
    split; [apply Hal|]. rewrite <- Htmo. apply get_allowed_trace, Hal.
  - intros parse join server session base tmo tr tr' code self
      Hbase Hserver Hcode Hinit url tr2.
    apply Fetcher_init_robots in Hinit as (_ & _ & Hrob).
    rewrite Hbase in Hrob. simpl robots_read in Hrob.
    rewrite Hserver in Hrob.
    assert (∀ u, allowed self u = false) as Hal.
    { intros u. unfold allowed. rewrite Hrob. simpl.
      unfold robotparser_can_fetch.
      destruct ((code =? 401)%Z || (code =? 403)%Z) eqn:E1; [reflexivity|].
      apply orb_false_iff in E1 as [E1 E2].
      apply Z.eqb_neq in E1, E2.
      assert ((400 <=? code)%Z && (code <? 500)%Z = false) as ->;
        [|reflexivity].
      apply andb_false_iff. right. apply Z.ltb_ge. lia. }
    split; [apply Hal|]. unfold get. by rewrite Hal.
Qed.

(** The three parts on three sites: one whose robots file denies
    [/private], one whose robots file cannot be read, and one that answers
    the robots file with status 503. *)
Lemma get_robots_gate_witness :
  let denying := deny_net ["https://example.com/private"] true in
  let unread := deny_net [] false in
  let failing :=
    urllib_net (λ _, ("https", "example.com")) concat_urljoin
      (λ _, FetchHTTPError 503)
      (λ _ _ _, inl {| status_code := 200; resp_text := "" |}) in
  let base := Some "https://example.com" in
  let self1 : Fetcher denying :=
    @Build_Fetcher denying 15 base (Some ["https://example.com/private"]) in
  let self2 : Fetcher unread := @Build_Fetcher unread 15 base None in
  let self3 : Fetcher failing :=
    @Build_Fetcher failing 15 base (robotparser_read (FetchHTTPError 503)) in
  get self1 "/private" []
  = (inr (PermissionError
            ("robots.txt disallows fetching: " +:+ target_url self1 "/private")),
     [])
  ∧ (Fetcher_init unread base 15 []
     = (inl self2, [RobotsRead "https://example.com/robots.txt"])
     ∧ allowed self2 "https://example.com/private" = true
     ∧ (get self2 "/private" []).2
       = [] ++ [HttpGet (target_url self2 "/private") 15])
  ∧ (Fetcher_init failing base 15 []
     = (inl self3, [RobotsRead "https://example.com/robots.txt"])
     ∧ allowed self3 "https://example.com/page" = false
     ∧ get self3 "/page" []
       = (inr (PermissionError
                 ("robots.txt disallows fetching: "
                  +:+ target_url self3 "/page")),
          [])).
Proof.
  intros denying unread failing base self1 self2 self3.
  assert (_robots self1 = Some ["https://example.com/private"]) as Hrp
    by reflexivity.
  assert (can_fetch denying ["https://example.com/private"] user_agent
            (target_url self1 "/private") = false) as Hdeny
    by (vm_compute; reflexivity).
  assert (Fetcher_init unread base 15 []
          = (inl self2, [RobotsRead "https://example.com/robots.txt"]))
    as Hinit2 by reflexivity.
  assert (robots_read unread (robots_url_of unread (default "" base)) []
          = None) as Hread by reflexivity.
  assert (truthy_opt_str base = true) as Hbase by reflexivity.
  assert ((λ _ : string, FetchHTTPError 503)
            (robots_url_of failing (default "" base))
          = FetchHTTPError 503) as Hserver by reflexivity.
  assert (503 = 401 ∨ 503 = 403 ∨ 500 <= 503)%Z as Hcode
    by (right; right; lia).
  assert (Fetcher_init failing base 15 []
          = (inl self3, [RobotsRead "https://example.com/robots.txt"]))
    as Hinit3 by reflexivity.
  split; [|split].
  - exact (proj1 (get_robots_gate denying) self1 _ "/private" [] Hrp Hdeny).
  - split; [exact Hinit2|].
    split.
    + exact (proj1 (proj1 (proj2 (get_robots_gate unread))
                      base 15%Q [] _ self2 Hinit2 Hread
                      "https://example.com/private" [])).
    + exact (proj2 (proj1 (proj2 (get_robots_gate unread))
                      base 15%Q [] _ self2 Hinit2 Hread "/private" [])).
  - split; [exact Hinit3|].
    split.
    + exact (proj1 (proj2 (proj2 (get_robots_gate failing))
                      _ _ _ _ base 15%Q [] _ 503%Z self3
                      Hbase Hserver Hcode Hinit3
                      "https://example.com/page" [])).
    + exact (proj2 (proj2 (proj2 (get_robots_gate failing))
                      _ _ _ _ base 15%Q [] _ 503%Z self3
                      Hbase Hserver Hcode Hinit3 "/page" [])).
Defined.

(** The robots file answered with status 503: the load failed, and the
    fetcher built on it refuses every URL. *)
Example get_after_failed_load :
  let net := urllib_net (λ _, ("https", "example.com")) concat_urljoin
               (λ _, FetchHTTPError 503)
               (λ _ _ _, inl {| status_code := 200; resp_text := "" |}) in
  ∃ self tr',
    Fetcher_init net (Some "https://example.com") 15 [] = (inl self, tr')
    ∧ tr' = [RobotsRead "https://example.com/robots.txt"]
    ∧ allowed self "https://example.com/page" = false
    ∧ get self "/page" tr'
      = (inr (PermissionError
                "robots.txt disallows fetching: https://example.com/page"),
         tr').
Proof. eexists _, _. split; [reflexivity|]. vm_compute. auto. Qed.

Example get_denied :
  ∃ self tr',
    Fetcher_init (deny_net ["https://example.com/private"] true)
      (Some "https://example.com") 15 [] = (inl self, tr')
    ∧ tr' = [RobotsRead "https://example.com/robots.txt"]
    ∧ get self "/private" tr'
      = (inr (PermissionError
                "robots.txt disallows fetching: https://example.com/private"),
         tr')
    ∧ get self "/public" tr'
      = (inl {| status_code := 200; resp_text := "" |},
         tr' ++ [HttpGet "https://example.com/public" 15]).
Proof. eexists _, _. split; [reflexivity|]. vm_compute. auto. Qed.

Example get_robots_unavailable :
  ∃ self tr',
    Fetcher_init (deny_net ["https://example.com/private"] false)
      (Some "https://example.com") 15 [] = (inl self, tr')
    ∧ _robots self = None
    ∧ get self "/private" tr'
      = (inl {| status_code := 200; resp_text := "" |},
         tr' ++ [HttpGet "https://example.com/private" 15]).
Proof. eexists _, _. split; [reflexivity|]. vm_compute. auto. Qed.

(** ** [group_by] and [count_occurrences] *)

Lemma py_eq_true_sym (a b : pyval) : py_eq a b = true → py_eq b a = true.
Proof. by rewrite py_eq_sym. Qed.

Section Grouping.

Variable key : string.

Lemma group_append_get (v k : pyval) (item : record)
  (grouped : pydict (list record)) :
  pydict_get (group_append v item grouped) k
  = if py_eq v k
    then Some (default [] (pydict_get grouped k) ++ [item])
    else pydict_get grouped k.
Proof.
  induction grouped as [|[k' g] rest IH]; simpl.
  - destruct (py_eq v k); reflexivity.
  - destruct (py_eq k' v) eqn:Ekv; simpl.
    + destruct (py_eq k' k) eqn:Ek.
      * rewrite py_eq_sym in Ekv. by rewrite (py_eq_trans v k' k Ekv Ek).
      * destruct (py_eq v k) eqn:Evk; [|reflexivity].
        rewrite (py_eq_trans k' v k Ekv Evk) in Ek. discriminate.
    + destruct (py_eq k' k) eqn:Ek; [|exact IH].
      destruct (py_eq v k) eqn:Evk; [|reflexivity].
      apply py_eq_true_sym in Evk.
      rewrite (py_eq_trans k' k v Ek Evk) in Ekv. discriminate.
Qed.

Lemma group_append_has_key (v k : pyval) (item : record)
  (grouped : pydict (list record)) :
  existsb (λ kv, py_eq kv.1 k) (group_append v item grouped)
  = existsb (λ kv, py_eq kv.1 k) grouped || py_eq v k.
Proof.
  induction grouped as [|[k' g] rest IH]; simpl.
  - by rewrite orb_false_r.
  - destruct (py_eq k' v) eqn:Ekv; simpl.
    + destruct (py_eq v k) eqn:Evk; [|by rewrite orb_false_r].
      rewrite (py_eq_trans k' v k Ekv Evk). reflexivity.
    + rewrite IH. by rewrite orb_assoc.
Qed.

Lemma group_append_distinct (v : pyval) (item : record)
  (grouped : pydict (list record)) :
  keys_distinct grouped = true →
  keys_distinct (group_append v item grouped) = true.
Proof.
  induction grouped as [|[k' g] rest IH]; simpl; [done|].
  intros [Hk Hrest]%andb_true_iff.
  destruct (py_eq k' v) eqn:Ekv; simpl.
  - by rewrite Hk, Hrest.
  - rewrite group_append_has_key, (IH Hrest).
    apply negb_true_iff in Hk. rewrite Hk. simpl.
    by rewrite py_eq_sym, Ekv.
Qed.

Lemma keys_distinct_get {V} (d : pydict V) (k : pyval) (x : V) :
  keys_distinct d = true → (k, x) ∈ d → pydict_get d k = Some x.
Proof.
  induction d as [|[k' x'] d IH]; simpl.
  - intros _ Hin. by apply elem_of_nil in Hin.
  - intros [Hk Hd]%andb_true_iff [[= -> ->]|Hin]%elem_of_cons.
    + by rewrite py_eq_refl.
    + apply negb_true_iff in Hk.
      destruct (py_eq k' k) eqn:E; [|by apply IH].
      exfalso. rewrite <- not_true_iff_false in Hk. apply Hk.
      apply existsb_exists. exists (k, x). split.
      * by apply list_elem_of_In.
      * simpl. by apply py_eq_true_sym.
Qed.

Lemma group_by_loop_get (data : list record) (acc : pydict (list record))
  (k : pyval) :
  pydict_get
    (fold_left
       (λ grouped item,
          match item !! key with
          | Some v => group_append v item grouped
          | None => grouped
          end) data acc) k
  = match pydict_get acc k, with_key_value key k data with
    | None, [] => None
    | o, l => Some (default [] o ++ l)
    end.
Proof.
  unfold with_key_value.
  revert acc. induction data as [|item rest IH]; intros acc; simpl.
  - destruct (pydict_get acc k); simpl; [by rewrite app_nil_r | done].
  - rewrite IH. destruct (item !! key) as [v|]; [|reflexivity].
    rewrite group_append_get. destruct (py_eq v k); [|reflexivity].
    destruct (pydict_get acc k) as [g|]; simpl.
    + by rewrite <- app_assoc.
    + reflexivity.
Qed.

Lemma group_by_loop_distinct (data : list record)
  (acc : pydict (list record)) :
  keys_distinct acc = true →
  keys_distinct
    (fold_left
       (λ grouped item,
          match item !! key with
          | Some v => group_append v item grouped
          | None => grouped
          end) data acc) = true.
Proof.
  revert acc. induction data as [|item rest IH]; intros acc Hacc; simpl.
  - exact Hacc.
  - apply IH. destruct (item !! key); [|exact Hacc].
    by apply group_append_distinct.
Qed.

Lemma group_by_get (data : list record) (k : pyval) :
  pydict_get (group_by data key) k
  = match with_key_value key k data with [] => None | l => Some l end.
Proof. unfold group_by. by rewrite group_by_loop_get. Qed.

(** X1. [group_by]: looking up a value gives the records that have the key
    with an equal value, in input order, and nothing when there is none;
    no two groups have equal keys, and every group is non-empty.  A record
    without the key is in no group. *)
Theorem group_by_groups (data : list record) (k : pyval)
  (g : list record) :
  pydict_get (group_by data key) k
  = match with_key_value key k data with [] => None | l => Some l end
  ∧ keys_distinct (group_by data key) = true
  ∧ ((k, g) ∈ group_by data key →
     g = with_key_value key k data ∧ g ≠ []
     ∧ ∀ r, r ∈ g → r ∈ data ∧ ∃ w, r !! key = Some w ∧ py_eq w k = true).
Proof.
  pose proof (group_by_get data k) as Hget.
  assert (keys_distinct (group_by data key) = true) as Hd
    by (by apply group_by_loop_distinct).
  split; [exact Hget|]. split; [exact Hd|].
  intros Hin. pose proof (keys_distinct_get _ _ _ Hd Hin) as Hg.
  rewrite Hget in Hg.
  destruct (with_key_value key k data) as [|r0 l] eqn:E; [done|].
  injection Hg as <-. split; [reflexivity|]. split; [done|].
  intros r Hr. rewrite <- E in Hr. unfold with_key_value in Hr.
  apply list_elem_of_In, filter_In in Hr as [Hr Hk].
  split; [by apply list_elem_of_In|].
  destruct (r !! key) as [w|]; [eauto | discriminate].
Qed.

(** X2. For a value other than [None], the group of [group_by] is what
    [filter_data] returns for that literal. *)
Theorem group_by_filter_data (data : list record) (k : pyval) :
  k ≠ VNone →
  pydict_get (group_by data key) k
  = match filter_data data key (Literal k) with [] => None | l => Some l end.
Proof.
  intros Hk. rewrite group_by_get.
  assert (with_key_value key k data = filter_data data key (Literal k)) as ->;
    [|reflexivity].
  unfold with_key_value. simpl. apply filter_ext. intros r.
  unfold dict_get. destruct (r !! key) as [w|]; simpl; [reflexivity|].
  by destruct k.
Qed.

Lemma counter_add_group_append (v : pyval) (item : record)
  (grouped : pydict (list record)) :
  counter_add v (map (λ kg, (kg.1, length kg.2)) grouped)
  = map (λ kg, (kg.1, length kg.2)) (group_append v item grouped).
Proof.
  induction grouped as [|[k g] rest IH]; simpl; [reflexivity|].
  destruct (py_eq k v); simpl.
  - rewrite length_app. simpl. by rewrite Nat.add_1_r.
  - by rewrite IH.
Qed.

Lemma counter_add_sum (v : pyval) (counts : pydict nat) :
  sum_list (counter_add v counts).*2 = S (sum_list counts.*2).
Proof.
  induction counts as [|[k n] rest IH]; [reflexivity|].
  simpl counter_add. destruct (py_eq k v); rewrite !fmap_cons; simpl.
  - reflexivity.
  - rewrite IH. lia.
Qed.

(** X3. [count_occurrences] gives, for every group of [group_by] and in
    the same order, the size of the group; the counts add up to the number
    of records that have the key. *)
Theorem count_occurrences_group_by (data : list record) :
  count_occurrences data key
  = map (λ kg, (kg.1, length kg.2)) (group_by data key)
  ∧ sum_list (count_occurrences data key).*2
    = length (omap (λ item : record, item !! key) data).
Proof.
  unfold count_occurrences, group_by. split.
  - change (@nil (pyval * nat))
      with (map (λ kg : pyval * list record, (kg.1, length kg.2)) []).
    generalize (@nil (pyval * list record)) as acc.
    induction data as [|item rest IH]; intros acc; simpl; [reflexivity|].
    destruct (item !! key) as [v|]; simpl; [|apply IH].
    rewrite (counter_add_group_append v item). apply IH.
  - assert (∀ (vs : list pyval) (acc : pydict nat),
              sum_list (fold_left (λ counts v, counter_add v counts) vs acc).*2
              = sum_list acc.*2 + length vs) as H.
    { induction vs as [|v vs IH]; intros acc; simpl; [lia|].
      rewrite IH, counter_add_sum. lia. }
    by rewrite H.
Qed.

End Grouping.

Lemma group_by_filter_data_witness :
  VInt 1 ≠ VNone
  ∧ pydict_get
      (group_by [ {[ "id" := VInt 1 ]}; {[ "v" := VStr "x" ]};
                  {[ "id" := VFloat 1 ]} ] "id") (VInt 1)
    = Some [ {[ "id" := VInt 1 ]}; {[ "id" := VFloat 1 ]} ].
Proof.
  assert (VInt 1 ≠ VNone) as Hne by discriminate.
  split; [exact Hne|].
  rewrite (group_by_filter_data "id" _ (VInt 1) Hne).
  vm_compute. reflexivity.
Defined.

(** ** [filter_data], [check_required_fields] *)

Lemma filter_data_filter (data : list record) (key : string)
  (value : filter_arg) :
  filter_data data key value = List.filter (filter_test key value) data.
Proof. destruct value; reflexivity. Qed.

Lemma filter_sublist {A} (p : A → bool) (l : list A) :
  sublist (List.filter p l) l.
Proof.
  induction l as [|x l IH]; simpl; [constructor|].
  destruct (p x); by constructor.
Qed.

Lemma filter_comm {A} (p q : A → bool) (l : list A) :
  List.filter q (List.filter p l) = List.filter p (List.filter q l).
Proof.
  induction l as [|x l IH]; simpl; [reflexivity|].
  destruct (p x) eqn:Hp, (q x) eqn:Hq; simpl; rewrite ?Hp, ?Hq, IH; reflexivity.
Qed.

(** X4. [filter_data] returns a subsequence of its input, and two filters
    give the same result in either order. *)
Theorem filter_data_commute (data : list record) (key1 key2 : string)
  (value1 value2 : filter_arg) :
  sublist (filter_data data key1 value1) data
  ∧ filter_data (filter_data data key1 value1) key2 value2
    = filter_data (filter_data data key2 value2) key1 value1.
Proof.
  rewrite !filter_data_filter. split; [apply filter_sublist | apply filter_comm].
Qed.

Lemma check_required_fields_loop_acc (data : list record)
  (required_fields : list string) (invalid : list record) :
  check_required_fields_loop data required_fields invalid
  = invalid
    ++ List.filter (λ item, negb (has_all_fields required_fields item)) data.
Proof.
  revert invalid. induction data as [|item rest IH]; intros invalid; simpl.
  - by rewrite app_nil_r.
  - destruct (negb (has_all_fields required_fields item)); [|apply IH].
    by rewrite IH, <- app_assoc.
Qed.

Lemma has_all_fields_spec (required_fields : list string) (item : record) :
  has_all_fields required_fields item = true
  ↔ ∀ field, field ∈ required_fields → is_Some (item !! field).
Proof.
  unfold has_all_fields. rewrite forallb_forall. split.
  - intros H field Hin. apply list_elem_of_In in Hin.
    exact (bool_decide_eq_true_1 _ (H field Hin)).
  - intros H field Hin. apply bool_decide_eq_true_2, H.
    by apply list_elem_of_In.
Qed.

Lemma has_all_fields_false (required_fields : list string) (item : record) :
  has_all_fields required_fields item = false
  ↔ ∃ field, field ∈ required_fields ∧ item !! field = None.
Proof.
  unfold has_all_fields.
  induction required_fields as [|f fs IH]; simpl.
  - split; [done|]. intros (field & Hin & _). by apply elem_of_nil in Hin.
  - rewrite andb_false_iff, IH. split.
    + intros [Hf|(field & Hin & Hnone)].
      * exists f. split; [left|]. apply bool_decide_eq_false in Hf.
        destruct (item !! f); [|reflexivity]. exfalso. apply Hf. eauto.
      * exists field. split; [by right | exact Hnone].
    + intros (field & [->|Hin]%elem_of_cons & Hnone).
      * left. rewrite Hnone. reflexivity.
      * right. eauto.
Qed.

(** X7. [check_required_fields]: the invalid records are, in input order,
    the records in which some required field is missing as a key; a field
    whose value is [None] is present.  The flag is true exactly when every
    record has every required field. *)
Theorem check_required_fields_spec (data : list record)
  (required_fields : list string) :
  let '(all_valid, invalid) := check_required_fields data required_fields in
  sublist invalid data
  ∧ (∀ item, item ∈ invalid ↔
       item ∈ data ∧ ∃ field, field ∈ required_fields ∧ item !! field = None)
  ∧ (all_valid = true ↔
       ∀ item field, item ∈ data → field ∈ required_fields →
                     is_Some (item !! field)).
Proof.
  unfold check_required_fields.
  rewrite check_required_fields_loop_acc. simpl.
  set (bad := λ item, negb (has_all_fields required_fields item)).
  assert (∀ item, bad item = true
            ↔ ∃ field, field ∈ required_fields ∧ item !! field = None) as Hbad.
  { intros item. unfold bad. rewrite negb_true_iff.
    apply has_all_fields_false. }
  assert (∀ item, item ∈ List.filter bad data
            ↔ item ∈ data ∧ ∃ field, field ∈ required_fields
                                      ∧ item !! field = None) as Helem.
  { intros item. rewrite list_elem_of_In, filter_In, <- list_elem_of_In.
    by rewrite Hbad. }
  split; [apply filter_sublist|]. split; [exact Helem|].
  rewrite Nat.eqb_eq. split.
  - intros Hlen item field Hitem Hfield.
    destruct (item !! field) eqn:E; [eauto|]. exfalso.
    assert (item ∈ List.filter bad data) as Hin by (apply Helem; eauto).
    destruct (List.filter bad data); [by apply elem_of_nil in Hin | done].
  - intros Hall. destruct (List.filter bad data) as [|item l] eqn:E; [done|].
    exfalso. assert (item ∈ item :: l) as Hin by left.
    apply Helem in Hin as (Hitem & field & Hfield & Hnone).
    specialize (Hall item field Hitem Hfield). rewrite Hnone in Hall.
    by destruct Hall.
Qed.

(** ** More on [remove_duplicates] *)

Lemma remove_duplicates_loop_idemp (key : string) (data : list record)
  (seen : list pyval) :
  remove_duplicates_loop key (remove_duplicates_loop key data seen []) seen []
  = remove_duplicates_loop key data seen [].
Proof.
  revert seen. induction data as [|item rest IH]; intros seen; [reflexivity|].
  rewrite remove_duplicates_loop_cons.
  destruct (item !! key) as [v|] eqn:Hitem; [|apply IH].
  destruct (existsb (py_eq v) seen) eqn:Hseen; [apply IH|].
  rewrite remove_duplicates_loop_cons, Hitem, Hseen. by rewrite IH.
Qed.

(** X8. With a key given, removing duplicates twice gives what removing
    them once gives. *)
Theorem remove_duplicates_idempotent (rt : PyRuntime) (data : list record)
  (key : string) :
  key ≠ "" →
  remove_duplicates rt (remove_duplicates rt data (Some key)) (Some key)
  = remove_duplicates rt data (Some key).
Proof.
  intros Hkey. unfold remove_duplicates.
  destruct key as [|c key]; [done|]. simpl truthy_str. cbv iota.
  apply remove_duplicates_loop_idemp.
Qed.

Lemma remove_duplicates_idempotent_witness :
  "id" ≠ ""
  ∧ remove_duplicates {| float_of_str := λ _, None; set_iter := λ l, l |}
      (remove_duplicates {| float_of_str := λ _, None; set_iter := λ l, l |}
         [ {[ "id" := VInt 1 ]}; {[ "id" := VBool true ]} ] (Some "id"))
      (Some "id")
    = remove_duplicates {| float_of_str := λ _, None; set_iter := λ l, l |}
        [ {[ "id" := VInt 1 ]}; {[ "id" := VBool true ]} ] (Some "id").
Proof.
  assert ("id" ≠ "") as Hne by discriminate.
  split; [exact Hne|].
  exact (remove_duplicates_idempotent _ _ "id" Hne).
Defined.

Section GroupHeads.

Variable key : string.

Let heads (d : pydict (list record)) : list record :=
  omap (λ kg, head kg.2) d.

Lemma group_append_heads (v : pyval) (item : record)
  (grouped : pydict (list record)) :
  Forall (λ kg, kg.2 ≠ []) grouped →
  heads (group_append v item grouped)
  = (if existsb (λ kg, py_eq kg.1 v) grouped then heads grouped
     else heads grouped ++ [item])
  ∧ Forall (λ kg, kg.2 ≠ []) (group_append v item grouped).
Proof.
  unfold heads.
  induction grouped as [|[k g] rest IH]; intros Hne.
  - split; [reflexivity|]. by repeat constructor.
  - apply Forall_cons in Hne as [Hg Hrest]. simpl in Hg.
    destruct g as [|r g]; [done|].
    simpl group_append. simpl existsb.
    destruct (py_eq k v); simpl orb; cbv iota.
    + split; [reflexivity|]. by constructor.
    + destruct (IH Hrest) as [IH1 IH2]. split; [|by constructor].
      csimpl. rewrite IH1.
      by destruct (existsb (λ kg, py_eq kg.1 v) rest).
Qed.

Lemma has_key_equiv (v w : pyval) (grouped : pydict (list record)) :
  existsb (λ kg, py_eq kg.1 v) grouped = true → py_eq v w = true →
  existsb (λ kg, py_eq kg.1 w) grouped = true.
Proof.
  intros Hv Hvw. apply existsb_exists in Hv as (kg & Hin & Hk).
  apply existsb_exists. exists kg. split; [exact Hin|].
  by apply py_eq_trans with v.
Qed.

Lemma group_by_loop_heads (data : list record)
  (acc : pydict (list record)) (seen : list pyval) :
  Forall (λ kg, kg.2 ≠ []) acc →
  (∀ w, existsb (py_eq w) seen = existsb (λ kg, py_eq kg.1 w) acc) →
  heads
    (fold_left
       (λ grouped item,
          match item !! key with
          | Some v => group_append v item grouped
          | None => grouped
          end) data acc)
  = heads acc ++ remove_duplicates_loop key data seen [].
Proof.
  revert acc seen. induction data as [|item rest IH]; intros acc seen Hne Hseen.
  - simpl. by rewrite app_nil_r.
  - rewrite remove_duplicates_loop_cons. simpl fold_left.
    destruct (item !! key) as [v|]; [|by apply IH].
    destruct (group_append_heads v item acc Hne) as [Hh Hne'].
    rewrite (Hseen v).
    destruct (existsb (λ kg, py_eq kg.1 v) acc) eqn:Hv.
    + rewrite (IH _ seen Hne'); [by rewrite Hh|].
      intros w. rewrite group_append_has_key, Hseen.
      destruct (py_eq v w) eqn:Hvw; [|by rewrite orb_false_r].
      by rewrite (has_key_equiv v w acc Hv Hvw).
    + rewrite (IH _ (v :: seen) Hne').
      * rewrite Hh, <- app_assoc. reflexivity.
      * intros w. rewrite group_append_has_key. simpl.
        rewrite Hseen, (py_eq_sym w v). apply orb_comm.
Qed.

(** X9. With a key given, the records that [remove_duplicates] keeps are
    the first members of the groups of [group_by], in the order of the
    groups. *)
Theorem remove_duplicates_group_heads (rt : PyRuntime) (data : list record) :
  key ≠ "" →
  remove_duplicates rt data (Some key)
  = omap (λ kg, head kg.2) (group_by data key).
Proof.
  intros Hkey. unfold remove_duplicates.
  destruct key as [|c k] eqn:E; [done|]. simpl truthy_str. cbv iota.
  rewrite <- E. unfold group_by.
  pose proof (group_by_loop_heads data [] []) as H. unfold heads in H.
  rewrite H; [reflexivity | constructor | done].
Qed.

End GroupHeads.

Lemma remove_duplicates_group_heads_witness :
  "id" ≠ ""
  ∧ remove_duplicates {| float_of_str := λ _, None; set_iter := λ l, l |}
      [ {[ "id" := VInt 1 ]}; {[ "id" := VInt 2 ]};
        {[ "id" := VInt 1; "v" := VStr "c" ]} ] (Some "id")
    = omap (λ kg, head kg.2)
        (group_by [ {[ "id" := VInt 1 ]}; {[ "id" := VInt 2 ]};
                    {[ "id" := VInt 1; "v" := VStr "c" ]} ] "id").
Proof.
  assert ("id" ≠ "") as Hne by discriminate.
  split; [exact Hne|].
  exact (remove_duplicates_group_heads "id" _ _ Hne).
Defined.

(** ** [remove_duplicates] without a key *)

Lemma rec_eq_spec (m1 m2 : record) :
  rec_eq m1 m2 = true
  ↔ dom m1 = dom m2
    ∧ ∀ k v, m1 !! k = Some v → py_eq (dict_get m2 k) v = true.
Proof.
  unfold rec_eq. rewrite andb_true_iff, bool_decide_eq_true, forallb_forall.
  split; intros [Hdom H]; (split; [exact Hdom|]).
  - intros k v Hk. apply (H (k, v)).
    by apply list_elem_of_In, elem_of_map_to_list.
  - intros [k v] Hin. apply list_elem_of_In, elem_of_map_to_list in Hin.
    by apply H.
Qed.

Lemma rec_eq_refl (m : record) : rec_eq m m = true.
Proof.
  apply rec_eq_spec. split; [reflexivity|]. intros k v Hk.
  unfold dict_get. rewrite Hk. apply py_eq_refl.
Qed.

Lemma rec_eq_true_sym (m1 m2 : record) :
  rec_eq m1 m2 = true → rec_eq m2 m1 = true.
Proof.
  rewrite !rec_eq_spec. intros [Hdom H]. split; [by symmetry|].
  intros k w Hk.
  assert (k ∈ dom m1) as Hin
    by (rewrite Hdom; apply elem_of_dom; eauto).
  apply elem_of_dom in Hin as [v Hv]. specialize (H k v Hv).
  unfold dict_get in *. rewrite Hk in H. rewrite Hv. simpl in *.
  by apply py_eq_true_sym.
Qed.

Lemma rec_eq_sym (m1 m2 : record) : rec_eq m1 m2 = rec_eq m2 m1.
Proof.
  destruct (rec_eq m1 m2) eqn:E1, (rec_eq m2 m1) eqn:E2; try reflexivity.
  - apply rec_eq_true_sym in E1. congruence.
  - apply rec_eq_true_sym in E2. congruence.
Qed.

Lemma distinct_records_fresh (data seen : list record) (d : record) :
  d ∈ distinct_records data seen →
  d ∈ data ∧ existsb (rec_eq d) seen = false.
Proof.
  revert seen. induction data as [|x rest IH]; intros seen; simpl.
  - by intros ?%elem_of_nil.
  - destruct (existsb (rec_eq x) seen) eqn:Hx.
    + intros [Hin Hf]%IH. split; [by right | exact Hf].
    + intros [->|Hin]%elem_of_cons.
      * split; [left | exact Hx].
      * apply IH in Hin as [Hin Hf]. simpl in Hf.
        apply orb_false_iff in Hf as [_ Hf]. split; [by right | exact Hf].
Qed.

Lemma distinct_records_once (data seen : list record) (d : record) :
  d ∈ distinct_records data seen →
  length (List.filter (rec_eq d) (distinct_records data seen)) = 1.
Proof.
  revert seen. induction data as [|x rest IH]; intros seen; simpl.
  - by intros ?%elem_of_nil.
  - destruct (existsb (rec_eq x) seen) eqn:Hx; [apply IH|].
    intros [->|Hin]%elem_of_cons; simpl.
    + rewrite rec_eq_refl. simpl. f_equal.
      apply filter_length_none. intros y Hy.
      apply list_elem_of_In, distinct_records_fresh in Hy as [_ Hy].
      simpl in Hy. apply orb_false_iff in Hy as [Hy _].
      by rewrite rec_eq_sym.
    + pose proof (distinct_records_fresh _ _ _ Hin) as [_ Hf].
      simpl in Hf. apply orb_false_iff in Hf as [Hf _]. rewrite Hf.
      by apply IH.
Qed.

Lemma distinct_records_cover (data seen : list record) (d : record) :
  d ∈ data →
  ∃ d', d' ∈ seen ++ distinct_records data seen ∧ rec_eq d d' = true.
Proof.
  revert seen. induction data as [|x rest IH]; intros seen Hin.
  - by apply elem_of_nil in Hin.
  - simpl. apply elem_of_cons in Hin as [->|Hin].
    + destruct (existsb (rec_eq x) seen) eqn:Hx.
      * apply existsb_exists in Hx as (d' & Hd' & E). exists d'.
        split; [|exact E]. apply elem_of_app. left. by apply list_elem_of_In.
      * exists x. split; [|apply rec_eq_refl].
        apply elem_of_app. right. left.
    + destruct (existsb (rec_eq x) seen); [by apply IH|].
      destruct (IH (x :: seen) Hin) as (d' & Hd' & E). exists d'.
      split; [|exact E].
      apply elem_of_app. apply elem_of_cons in Hd' as [->|Hd'];
        [right; left|].
      apply elem_of_app in Hd' as [Hd'|Hd']; [by left | right; by right].
Qed.

(** X10. Without a key, and with a set that iterates over each of its
    elements once, [remove_duplicates] returns records of the input, every
    input record is equal to a returned one, and no two returned records
    are equal: each is equal to exactly one record of the output. *)
Theorem remove_duplicates_whole_records (rt : PyRuntime)
  (data : list record) (key : option string) :
  (∀ l, Permutation (set_iter rt l) l) →
  truthy_opt_str key = false →
  let out := remove_duplicates rt data key in
  (∀ d, d ∈ out → d ∈ data)
  ∧ (∀ d, d ∈ data → ∃ d', d' ∈ out ∧ rec_eq d d' = true)
  ∧ (∀ d, d ∈ out → length (List.filter (rec_eq d) out) = 1).
Proof.
  intros Hperm Hkey out.
  assert (out = set_iter rt (distinct_records data [])) as ->.
  { subst out. unfold remove_duplicates. destruct key as [k|]; [|reflexivity].
    simpl in Hkey. by rewrite Hkey. }
  pose proof (Hperm (distinct_records data [])) as Hp.
  split; [|split].
  - intros d Hd. rewrite Hp in Hd.
    by apply distinct_records_fresh in Hd as [Hd _].
  - intros d Hd. destruct (distinct_records_cover data [] d Hd) as (d' & Hd' & E).
    exists d'. split; [|exact E]. by rewrite Hp.
  - intros d Hd. rewrite (filter_length_perm _ _ _ Hp).
    apply distinct_records_once. by rewrite <- Hp.
Qed.

Lemma remove_duplicates_whole_records_witness :
  (∀ l, Permutation
          (set_iter {| float_of_str := λ _, None; set_iter := λ l, l |} l) l)
  ∧ truthy_opt_str None = false
  ∧ ∀ d, d ∈ [ ({[ "a" := VInt 1 ]} : record); {[ "a" := VFloat 1 ]} ] →
      ∃ d', d' ∈ remove_duplicates
                   {| float_of_str := λ _, None; set_iter := λ l, l |}
                   [ {[ "a" := VInt 1 ]}; {[ "a" := VFloat 1 ]} ] None
            ∧ rec_eq d d' = true.
Proof.
  assert (∀ l, Permutation
            (set_iter {| float_of_str := λ _, None; set_iter := λ l, l |} l) l)
    as Hperm by (intros l; reflexivity).
  assert (truthy_opt_str None = false) as Hkey by reflexivity.
  split; [exact Hperm|]. split; [exact Hkey|].
  exact (proj1 (proj2 (remove_duplicates_whole_records _
                         [ {[ "a" := VInt 1 ]}; {[ "a" := VFloat 1 ]} ]
                         None Hperm Hkey))).
Defined.

(** ** [normalize_whitespace] and [clean_text] *)

Section Squeeze.

Context {A : Type} (ws : A → bool) (sp : A).
Hypothesis ws_sp : ws sp = true.

Lemma lstrip_sub_ws (b : bool) (l : list A) :
  lstrip ws (sub_ws ws sp b l) = sub_ws ws sp false (lstrip ws l).
Proof.
  revert b. induction l as [|c l IH]; intros b; [reflexivity|].
  simpl. destruct (ws c) eqn:Hc.
  - destruct b; simpl; rewrite ?ws_sp; apply IH.
  - simpl. rewrite Hc. reflexivity.
Qed.

Lemma rstrip_sub_ws_squeeze (l : list A) :
  rstrip ws (sub_ws ws sp false l) = squeeze ws sp InWord l
  ∧ match rstrip ws (sub_ws ws sp true l) with
    | [] => []
    | r => sp :: r
    end = squeeze ws sp AfterGap l.
Proof.
  induction l as [|c l [IH1 IH2]]; [split; reflexivity|].
  simpl sub_ws. simpl squeeze. destruct (ws c) eqn:Hc.
  - split; [|exact IH2]. simpl rstrip. rewrite ws_sp. rewrite <- IH2.
    by destruct (rstrip ws (sub_ws ws sp true l)).
  - rewrite (rstrip_cons_char ws c _ Hc), IH1. split; reflexivity.
Qed.

Lemma strip_sub_ws_squeeze (l : list A) :
  strip ws (sub_ws ws sp false l) = squeeze ws sp AtStart l.
Proof.
  unfold strip. rewrite lstrip_sub_ws.
  induction l as [|c l IH]; [reflexivity|].
  simpl. destruct (ws c) eqn:Hc; [exact IH|].
  change (rstrip ws (sub_ws ws sp false (c :: l)) = c :: squeeze ws sp InWord l).
  rewrite (proj1 (rstrip_sub_ws_squeeze (c :: l))). simpl. by rewrite Hc.
Qed.

Lemma split_ws_nonempty (l cur : list A) :
  cur ≠ [] → split_ws ws l cur ≠ [].
Proof.
  revert cur. induction l as [|c l IH]; intros cur Hcur; simpl.
  - by destruct cur.
  - destruct (ws c); [by destruct cur|]. apply IH. by destruct cur.
Qed.

Lemma join_split_ws_squeeze (l : list A) :
  (∀ cur, cur ≠ [] →
     join sp (split_ws ws l cur) = cur ++ squeeze ws sp InWord l)
  ∧ match split_ws ws l [] with
    | [] => []
    | parts => sp :: join sp parts
    end = squeeze ws sp AfterGap l
  ∧ join sp (split_ws ws l []) = squeeze ws sp AtStart l.
Proof.
  induction l as [|c l (IH1 & IH2 & IH3)].
  - split; [|split; reflexivity]. intros cur Hcur. simpl.
    destruct cur; [done|]. simpl. by rewrite app_nil_r.
  - simpl split_ws. simpl squeeze. destruct (ws c) eqn:Hc.
    + split; [|split; assumption]. intros cur Hcur.
      destruct cur as [|a cur]; [done|]. rewrite <- IH2.
      destruct (split_ws ws l []); simpl; [by rewrite app_nil_r | reflexivity].
    + assert (join sp (split_ws ws l [c]) = c :: squeeze ws sp InWord l) as Hc1
        by (apply (IH1 [c]); done).
      split; [|split].
      * intros cur Hcur. rewrite IH1 by (by destruct cur).
        by rewrite <- app_assoc.
      * simpl app. pose proof (split_ws_nonempty l [c]) as Hne.
        destruct (split_ws ws l [c]) eqn:E; [by exfalso; apply Hne|].
        by rewrite Hc1.
      * exact Hc1.
Qed.

(** Splitting at whitespace and joining with one separator is collapsing
    the whitespace runs and stripping. *)
Lemma join_split_strip_sub (l : list A) :
  join sp (split_ws ws l []) = strip ws (sub_ws ws sp false l).
Proof.
  rewrite strip_sub_ws_squeeze.
  apply (proj2 (proj2 (join_split_ws_squeeze l))).
Qed.

Lemma squeeze_nil (l : list A) :
  squeeze ws sp AtStart l = [] ↔ forallb ws l = true.
Proof.
  induction l as [|c l IH]; simpl; [done|].
  destruct (ws c); simpl; [exact IH | done].
Qed.

End Squeeze.

Lemma clean_text_chars (s : string) :
  String.list_ascii_of_string (clean_text (Some s))
  = strip isspace (sub_ws isspace space false (String.list_ascii_of_string s)).
Proof.
  unfold clean_text. destruct s as [|c s]; [reflexivity|].
  simpl truthy_opt_str. simpl negb. cbv iota.
  apply String.list_ascii_of_string_of_list_ascii.
Qed.

Lemma string_chars_inj (s t : string) :
  String.list_ascii_of_string s = String.list_ascii_of_string t → s = t.
Proof.
  intros H. rewrite <- (String.string_of_list_ascii_of_string s),
    <- (String.string_of_list_ascii_of_string t). by rewrite H.
Qed.

(** X11. On every string, [normalize_whitespace] and [clean_text] give
    the same result. *)
Theorem normalize_whitespace_clean_text (s : string) :
  normalize_whitespace s = clean_text (Some s).
Proof.
  apply string_chars_inj. rewrite clean_text_chars.
  unfold normalize_whitespace.
  rewrite String.list_ascii_of_string_of_list_ascii.
  apply (join_split_strip_sub isspace space isspace_space).
Qed.

Lemma clean_text_some_idemp (s : string) :
  clean_text (Some (clean_text (Some s))) = clean_text (Some s).
Proof.
  apply string_chars_inj. rewrite !clean_text_chars.
  apply (strip_sub_ws_idemp isspace space isspace_space).
Qed.

Lemma clean_text_empty_iff (s : string) :
  clean_text (Some s) = ""
  ↔ forallb isspace (String.list_ascii_of_string s) = true.
Proof.
  rewrite <- (squeeze_nil isspace space).
  rewrite <- (strip_sub_ws_squeeze isspace space isspace_space).
  rewrite <- clean_text_chars. split.
  - by intros ->.
  - intros H. by apply string_chars_inj.
Qed.

(** X13. [clean_list] drops the empty strings of its input and cleans the
    others, so it returns as many strings as there are non-empty inputs,
    each a fixed point of [clean_text].  A string of whitespace only is
    not dropped: it is the empty string in the result, and this is the
    only way the result holds an empty string. *)
Theorem clean_list_spec (items : list string) :
  length (clean_list items) = length (List.filter truthy_str items)
  ∧ (∀ o, o ∈ clean_list items → clean_text (Some o) = o)
  ∧ ("" ∈ clean_list items ↔
     ∃ item, item ∈ items ∧ item ≠ ""
             ∧ forallb isspace (String.list_ascii_of_string item) = true).
Proof.
  unfold clean_list. split; [apply length_map|]. split.
  - intros o (item & -> & _)%list_elem_of_fmap. apply clean_text_some_idemp.
  - rewrite list_elem_of_fmap. split.
    + intros (item & Hclean & Hin). exists item.
      apply list_elem_of_In, filter_In in Hin as [Hin Ht].
      split; [by apply list_elem_of_In|]. split; [by destruct item|].
      by apply clean_text_empty_iff.
    + intros (item & Hin & Hne & Hws). exists item. split.
      * symmetry. by apply clean_text_empty_iff.
      * apply list_elem_of_In, filter_In. split; [by apply list_elem_of_In|].
        by destruct item.
Qed.

Example clean_list_example :
  clean_list [ "  a  b "; ""; "   "; "c" ] = [ "a b"; ""; "c" ].
Proof. vm_compute. reflexivity. Qed.

(** ** [clean_price] *)






Example clean_price_examples :
  clean_price (Some "$19.99") = Some (19 + 99 / 100)%Q
  ∧ clean_price (Some "no digits") = None
  ∧ clean_price (Some "-5") = Some 5%Q
  ∧ clean_price (Some "$1,299.99") = Some 1%Q
  ∧ clean_price (Some "3.5 kg") = Some 3%Q.
Proof. vm_compute. auto. Qed.

(** ** The two extraction paths compared *)

(** X14. Without an attribute name ([None] or the empty string),
    [extract_items] returns one item per text that
    [HTMLParser.extract_by_selector] returns, in the same order, with that
    text, the base URL as source and no attribute. *)
Theorem extract_items_text_mode (bs : Bs4)
  (urljoin : string → string → string) (html base selector : string) :
  let texts := extract_by_selector bs (HTMLParser_init bs html base) selector in
  let item_of t := {| source_url := base; text := Some t; attr := None |} in
  extract_items bs urljoin html base selector None = map item_of texts
  ∧ extract_items bs urljoin html base selector (Some "") = map item_of texts.
Proof.
  intros texts item_of. subst texts. unfold extract_by_selector. simpl soup.
  rewrite !extract_items_map, map_map. split; reflexivity.
Qed.

(** X15. For an attribute other than [href] and [src], the values that
    [HTMLParser.extract_by_selector_attr] returns are the non-empty [attr]
    fields of the items of [extract_items], in the same order. *)
Theorem extract_by_selector_attr_items (bs : Bs4)
  (urljoin : string → string → string) (html base selector a : string) :
  a ≠ "" → a ≠ "href" → a ≠ "src" →
  extract_by_selector_attr bs (HTMLParser_init bs html base) selector a
  = List.filter truthy_attr
      (omap attr (extract_items bs urljoin html base selector (Some a))).
Proof.
  intros Ha Hhref Hsrc. unfold extract_by_selector_attr. simpl soup.
  rewrite extract_by_selector_attr_loop_acc, extract_items_map. simpl.
  assert (∀ el, attr (extract_item urljoin base (Some a) el) = tag_get el a)
    as Hattr.
  { intros el.
    assert (truthy_opt_str (Some a) = true) as Ht by (by destruct a).
    assert (String.eqb a "href" || String.eqb a "src" = false) as Hres
      by (apply orb_false_iff; split; by apply String.eqb_neq).
    unfold extract_item. rewrite Ht. cbn [attr default from_option id].
    unfold resolve_attr. rewrite Hres.
    by destruct (tag_get el a) as [[s|vs]|]. }
  induction (css_select bs (soup_parse bs html) selector) as [|el l IH];
    [reflexivity|].
  csimpl. rewrite IH, Hattr.
  destruct (tag_get el a) as [v|]; csimpl; [|reflexivity].
  by destruct (truthy_attr v).
Qed.

Lemma extract_by_selector_attr_items_witness :
  "class" ≠ "" ∧ "class" ≠ "href" ∧ "class" ≠ "src"
  ∧ extract_by_selector_attr (tag_engine links_doc)
      (HTMLParser_init (tag_engine links_doc) "" "https://example.com")
      "a" "class"
    = [ AList ["link"] ].
Proof.
  assert ("class" ≠ "") as H1 by discriminate.
  assert ("class" ≠ "href") as H2 by discriminate.
  assert ("class" ≠ "src") as H3 by discriminate.
  split; [exact H1|]. split; [exact H2|]. split; [exact H3|].
  rewrite (extract_by_selector_attr_items (tag_engine links_doc)
             concat_urljoin "" "https://example.com" "a" "class" H1 H2 H3).
  vm_compute. reflexivity.
Defined.

(** X16. Items follow the document order of the matched nodes.  For
    [href] and [src], the item of a node whose attribute is a string holds
    that string joined to the base URL. *)
Theorem extract_items_resolves (bs : Bs4)
  (urljoin : string → string → string) (html base selector a v : string)
  (i : nat) (el : Tag) :
  a = "href" ∨ a = "src" →
  css_select bs (soup_parse bs html) selector !! i = Some el →
  tag_get el a = Some (AStr v) →
  extract_items bs urljoin html base selector (Some a) !! i
  = Some {| source_url := base; text := None;
            attr := Some (AStr (urljoin base v)) |}.
Proof.
  intros Ha Hel Hget. rewrite extract_items_map, list_lookup_fmap, Hel.
  simpl. f_equal. unfold extract_item.
  destruct Ha as [-> | ->]; simpl; by rewrite Hget.
Qed.

Lemma extract_items_resolves_witness :
  ("href" = "href" ∨ "href" = "src")
  ∧ css_select (tag_engine links_doc) (soup_parse (tag_engine links_doc) "") "a"
      !! 1
    = Some (mkTag "a" {[ "href" := AStr "/p" ]} [PString "second"])
  ∧ tag_get (mkTag "a" {[ "href" := AStr "/p" ]} [PString "second"]) "href"
    = Some (AStr "/p")
  ∧ extract_items (tag_engine links_doc) concat_urljoin ""
      "https://example.com" "a" (Some "href") !! 1
    = Some {| source_url := "https://example.com"; text := None;
              attr := Some (AStr "https://example.com/p") |}.
Proof.
  assert ("href" = "href" ∨ "href" = "src") as Ha by (left; reflexivity).
  assert (css_select (tag_engine links_doc)
            (soup_parse (tag_engine links_doc) "") "a" !! 1
          = Some (mkTag "a" {[ "href" := AStr "/p" ]} [PString "second"]))
    as Hel by reflexivity.
  assert (tag_get (mkTag "a" {[ "href" := AStr "/p" ]} [PString "second"])
            "href" = Some (AStr "/p")) as Hget by reflexivity.
  split; [exact Ha|]. split; [exact Hel|]. split; [exact Hget|].
  exact (extract_items_resolves (tag_engine links_doc) concat_urljoin ""
           "https://example.com" "a" "href" "/p" 1 _ Ha Hel Hget).
Defined.

Lemma omap_length_le {A B} (f : A → option B) (l : list A) :
  length (omap f l) ≤ length l.
Proof.
  induction l as [|x l IH]; csimpl; [lia|].
  destruct (f x); simpl; lia.
Qed.

(** X23. [HTMLParser.extract_by_selector_attr] returns exactly the
    attribute values of the matched nodes that have the attribute with a
    non-empty value: no returned value is empty, so a node whose attribute
    is present but empty is skipped like a node without the attribute; and
    it never returns more values than there are matched nodes. *)
Theorem extract_by_selector_attr_spec (bs : Bs4) (self : HTMLParser)
  (selector a : string) (v : AttrVal) :
  (v ∈ extract_by_selector_attr bs self selector a
   ↔ truthy_attr v = true
     ∧ ∃ el, el ∈ css_select bs (soup self) selector ∧ tag_get el a = Some v)
  ∧ length (extract_by_selector_attr bs self selector a)
    ≤ length (css_select bs (soup self) selector).
Proof.
  unfold extract_by_selector_attr.
  rewrite extract_by_selector_attr_loop_acc. simpl. split.
  - rewrite list_elem_of_omap. split.
    + intros (el & Hin & H). destruct (tag_get el a) as [w|] eqn:E; [|done].
      simpl in H. destruct (truthy_attr w) eqn:Hw; [|done].
      injection H as ->. eauto.
    + intros (Hv & el & Hin & Hget). exists el. split; [exact Hin|].
      rewrite Hget. simpl. by rewrite Hv.
  - apply omap_length_le.
Qed.

Example extract_by_selector_attr_empty_value :
  extract_by_selector_attr
    (tag_engine (mkTag "[document]" ∅
       [ PTag (mkTag "a" {[ "href" := AStr "" ]} []);
         PTag (mkTag "a" {[ "href" := AStr "/q" ]} []) ]))
    (HTMLParser_init
       (tag_engine (mkTag "[document]" ∅
          [ PTag (mkTag "a" {[ "href" := AStr "" ]} []);
            PTag (mkTag "a" {[ "href" := AStr "/q" ]} []) ])) "" "")
    "a" "href"
  = [ AStr "/q" ].
Proof. vm_compute. reflexivity. Qed.

(** ** More on [extract_table] *)

Lemma extract_table_rows (bs : Bs4) (self : HTMLParser)
  (table_selector : string) (table : Tag) :
  select_one bs (soup self) table_selector = Some table →
  extract_table bs self table_selector
  = map (λ row, dict_zip (table_headers table) (row_cells row))
      (List.filter
         (λ row, length (find_all row ["td"]) =? length (table_headers table))
         (table_data_rows table)).
Proof.
  intros Hsel. unfold extract_table, table_headers, table_data_rows.
  rewrite Hsel.
  destruct (find_all table ["tr"]) as [|row0 rows'] eqn:Hrows.
  - by destruct (find table "thead").
  - destruct (find table "thead") as [header_row|];
      by rewrite extract_table_loop_acc.
Qed.

(** X20. When the header labels of the table are distinct, the record of
    a data row with as many cells as headers is in the result and files
    the text of the cell at each index under the header at that index. *)
Theorem extract_table_cells (bs : Bs4) (self : HTMLParser)
  (table_selector : string) (table row : Tag) :
  select_one bs (soup self) table_selector = Some table →
  NoDup (table_headers table) →
  row ∈ table_data_rows table →
  length (find_all row ["td"]) = length (table_headers table) →
  ∃ r, r ∈ extract_table bs self table_selector
       ∧ ∀ i h c, table_headers table !! i = Some h →
                  row_cells row !! i = Some c → r !! h = Some c.
Proof.
  intros Hsel Hnd Hrow Hlen.
  exists (dict_zip (table_headers table) (row_cells row)). split.
  - rewrite (extract_table_rows bs self table_selector table Hsel).
    apply (list_elem_of_fmap_2 (λ row, dict_zip (table_headers table) (row_cells row))).
    apply list_elem_of_In, filter_In. split; [by apply list_elem_of_In|].
    by apply Nat.eqb_eq.
  - intros i h c Hh Hc. apply (dict_zip_lookup _ _ i); try done.
    unfold row_cells. by rewrite length_map.
Qed.

Lemma extract_table_cells_witness :
  select_one (tag_engine table_doc)
    (soup (HTMLParser_init (tag_engine table_doc) "" "")) "table"
  = Some table_elem
  ∧ NoDup (table_headers table_elem)
  ∧ mkTag "tr" ∅
      [ PTag (mkTag "td" ∅ [PString "Tea"]);
        PTag (mkTag "td" ∅ [PString "3.50"]) ]
      ∈ table_data_rows table_elem
  ∧ length (find_all
              (mkTag "tr" ∅
                 [ PTag (mkTag "td" ∅ [PString "Tea"]);
                   PTag (mkTag "td" ∅ [PString "3.50"]) ]) ["td"])
    = length (table_headers table_elem)
  ∧ ∃ r, r ∈ extract_table (tag_engine table_doc)
               (HTMLParser_init (tag_engine table_doc) "" "") "table"
         ∧ ∀ i h c, table_headers table_elem !! i = Some h →
             row_cells
               (mkTag "tr" ∅
                  [ PTag (mkTag "td" ∅ [PString "Tea"]);
                    PTag (mkTag "td" ∅ [PString "3.50"]) ]) !! i = Some c →
             r !! h = Some c.
Proof.
  assert (select_one (tag_engine table_doc)
            (soup (HTMLParser_init (tag_engine table_doc) "" "")) "table"
          = Some table_elem) as Hsel by reflexivity.
  assert (NoDup (table_headers table_elem)) as Hnd.
  { vm_compute. apply NoDup_cons. split.
    - intros [H|H]%elem_of_cons; [discriminate | by apply elem_of_nil in H].
    - apply NoDup_singleton. }
  assert (mkTag "tr" ∅
            [ PTag (mkTag "td" ∅ [PString "Tea"]);
              PTag (mkTag "td" ∅ [PString "3.50"]) ]
            ∈ table_data_rows table_elem) as Hrow
    by (vm_compute; apply list_elem_of_here).
  assert (length (find_all
                    (mkTag "tr" ∅
                       [ PTag (mkTag "td" ∅ [PString "Tea"]);
                         PTag (mkTag "td" ∅ [PString "3.50"]) ]) ["td"])
          = length (table_headers table_elem)) as Hlen by reflexivity.
  split; [exact Hsel|]. split; [exact Hnd|]. split; [exact Hrow|].
  split; [exact Hlen|].
  exact (extract_table_cells (tag_engine table_doc)
           (HTMLParser_init (tag_engine table_doc) "" "") "table"
           table_elem _ Hsel Hnd Hrow Hlen).
Defined.

(** X21. When the table has a header section, its rows are examined as
    data rows too: a row whose [td] cells are the header cells is returned
    as a record that maps every header label to itself. *)
Theorem extract_table_thead_row (bs : Bs4) (self : HTMLParser)
  (table_selector : string) (table header_row row : Tag) :
  select_one bs (soup self) table_selector = Some table →
  find table "thead" = Some header_row →
  row ∈ find_all table ["tr"] →
  find_all row ["td"] = find_all header_row ["th"; "td"] →
  let headers := map get_text_strip (find_all header_row ["th"; "td"]) in
  dict_zip headers headers ∈ extract_table bs self table_selector.
Proof.
  intros Hsel Hthead Hrow Hcells headers.
  rewrite (extract_table_rows bs self table_selector table Hsel).
  assert (table_headers table = headers) as ->
    by (unfold table_headers; by rewrite Hthead).
  assert (row_cells row = headers) as Hrc
    by (unfold row_cells; by rewrite Hcells).
  rewrite <- Hrc at 2.
  apply (list_elem_of_fmap_2 (λ row, dict_zip headers (row_cells row))).
  apply list_elem_of_In, filter_In. split.
  - unfold table_data_rows. rewrite Hthead. by apply list_elem_of_In.
  - apply Nat.eqb_eq. rewrite Hcells. subst headers. by rewrite length_map.
Qed.

Lemma extract_table_thead_row_witness :
  select_one (tag_engine thead_doc)
    (soup (HTMLParser_init (tag_engine thead_doc) "" "")) "table"
  = Some thead_table
  ∧ find thead_table "thead" = Some thead_elem
  ∧ thead_row ∈ find_all thead_table ["tr"]
  ∧ find_all thead_row ["td"] = find_all thead_elem ["th"; "td"]
  ∧ ({[ "Name" := "Name"; "Price" := "Price" ]} : gmap string string)
      ∈ extract_table (tag_engine thead_doc)
          (HTMLParser_init (tag_engine thead_doc) "" "") "table".
Proof.
  assert (select_one (tag_engine thead_doc)
            (soup (HTMLParser_init (tag_engine thead_doc) "" "")) "table"
          = Some thead_table) as Hsel by reflexivity.
  assert (find thead_table "thead" = Some thead_elem) as Hthead by reflexivity.
  assert (thead_row ∈ find_all thead_table ["tr"]) as Hrow
    by (vm_compute; apply list_elem_of_here).
  assert (find_all thead_row ["td"] = find_all thead_elem ["th"; "td"])
    as Hcells by reflexivity.
  split; [exact Hsel|]. split; [exact Hthead|]. split; [exact Hrow|].
  split; [exact Hcells|].
  pose proof (extract_table_thead_row (tag_engine thead_doc)
                (HTMLParser_init (tag_engine thead_doc) "" "") "table"
                thead_table thead_elem thead_row Hsel Hthead Hrow Hcells) as H.
  exact H.
Defined.

Example extract_table_thead_example :
  extract_table (tag_engine thead_doc)
    (HTMLParser_init (tag_engine thead_doc) "" "") "table"
  = [ {[ "Name" := "Name"; "Price" := "Price" ]};
      {[ "Name" := "Tea"; "Price" := "3.50" ]} ].
Proof. vm_compute. reflexivity. Qed.

(** ** More on [Fetcher] *)

(** X19. [get] returns a response only when the URL is allowed, the
    session returned that response and its status is outside 400..599;
    [session.get] was then called once, for the joined URL (the adapter
    may have sent several requests for that one call). *)
Theorem get_success (net : Net) (self : Fetcher net) (url : string)
  (tr tr' : list event) (resp : Response) :
  get self url tr = (inl resp, tr') →
  allowed self (target_url self url) = true
  ∧ session_get net (target_url self url) (timeout self) tr = inl resp
  ∧ ¬ (400 <= status_code resp < 600)%Z
  ∧ tr' = tr ++ [HttpGet (target_url self url) (timeout self)].
Proof.
  unfold get. destruct (allowed self (target_url self url)); simpl;
    [|discriminate].
  unfold bind, http_get, raise_for_status.
  destruct (session_get net (target_url self url) (timeout self) tr)
    as [r|e]; [|discriminate].
  destruct ((400 <=? status_code r)%Z && (status_code r <? 600)%Z) eqn:E;
    simpl; [discriminate|].
  intros [= <- <-]. split; [reflexivity|]. split; [reflexivity|].
  split; [|reflexivity]. intros [H1 H2].
  apply andb_false_iff in E as [E|E]; lia.
Qed.

Lemma get_success_witness :
  get (net := deny_net [] true)
    {| timeout := 15; base_url := None; _robots := None |}
    "https://example.com/a" []
  = (inl {| status_code := 200; resp_text := "" |},
     [HttpGet "https://example.com/a" 15])
  ∧ allowed (net := deny_net [] true)
      {| timeout := 15; base_url := None; _robots := None |}
      "https://example.com/a" = true.
Proof.
  assert (get (net := deny_net [] true)
            {| timeout := 15; base_url := None; _robots := None |}
            "https://example.com/a" []
          = (inl {| status_code := 200; resp_text := "" |},
             [HttpGet "https://example.com/a" 15])) as Hget by reflexivity.
  split; [exact Hget|].
  exact (proj1 (get_success (deny_net [] true) _ _ _ _ _ Hget)).
Defined.

(** X22. A fetcher built without a base URL reads no robots file: the
    construction leaves the network untouched, every URL is allowed, and
    [get] requests the URL as it is given. *)
Theorem Fetcher_without_base (net : Net) (base : option string) (tmo : Q)
  (tr tr' : list event) (self : Fetcher net) :
  truthy_opt_str base = false →
  Fetcher_init net base tmo tr = (inl self, tr') →
  tr' = tr
  ∧ ∀ url tr2,
      allowed self url = true
      ∧ target_url self url = url
      ∧ (get self url tr2).2 = tr2 ++ [HttpGet url tmo].
Proof.
  intros Hbase Hinit.
  pose proof (Fetcher_init_robots net base tmo tr tr' self Hinit)
    as (Hb & Htmo & Hrob).
  rewrite Hbase in Hrob.
  unfold Fetcher_init in Hinit. rewrite Hbase in Hinit.
  unfold ret in Hinit. injection Hinit as _ <-.
  split; [reflexivity|]. intros url tr2.
  assert (∀ u, allowed self u = true) as Hal
    by (intros u; unfold allowed; by rewrite Hrob).
  assert (target_url self url = url) as Htarget
    by (unfold target_url; by rewrite Hb, Hbase).
  split; [apply Hal|]. split; [exact Htarget|].
  rewrite get_allowed_trace by apply Hal. by rewrite Htarget, Htmo.
Qed.

Lemma Fetcher_without_base_witness :
  truthy_opt_str None = false
  ∧ Fetcher_init (deny_net ["https://example.com/private"] true) None 15 []
    = (inl {| timeout := 15; base_url := None; _robots := None |}, [])
  ∧ allowed (net := deny_net ["https://example.com/private"] true)
      {| timeout := 15; base_url := None; _robots := None |}
      "https://example.com/private" = true.
Proof.
  assert (truthy_opt_str None = false) as Hb by reflexivity.
  assert (Fetcher_init (deny_net ["https://example.com/private"] true)
            None 15 []
          = (inl {| timeout := 15; base_url := None; _robots := None |}, []))
    as Hinit by reflexivity.
  split; [exact Hb|]. split; [exact Hinit|].
  destruct (Fetcher_without_base _ _ _ _ _ _ Hb Hinit) as [_ H].
  exact (proj1 (H "https://example.com/private" [])).
Defined.

(** ** [summarize] *)

Section Summarize.

Variable netloc_of : string → option string.

Lemma domain_add_get (n d : string) (domains : list (string * nat)) :
  domain_get (domain_add n domains) d
  = if String.eqb n d then Some (S (default 0 (domain_get domains d)))
    else domain_get domains d.
Proof.
  induction domains as [|[d' c] rest IH]; simpl.
  - by destruct (String.eqb n d).
  - destruct (String.eqb d' n) eqn:E1; simpl.
    + apply String.eqb_eq in E1 as ->.
      by destruct (String.eqb n d).
    + destruct (String.eqb d' d) eqn:E2; [|exact IH].
      apply String.eqb_eq in E2 as ->.
      rewrite String.eqb_sym in E1. by rewrite E1.
Qed.

Lemma domain_add_names (n d : string) (domains : list (string * nat)) :
  d ∈ (domain_add n domains).*1 ↔ d = n ∨ d ∈ domains.*1.
Proof.
  induction domains as [|[d' c] rest IH].
  - simpl. rewrite list_elem_of_singleton. split; [auto|]. intros [?|H]; [done|].
    by apply elem_of_nil in H.
  - simpl domain_add.
    destruct (String.eqb d' n) eqn:E; rewrite !fmap_cons; simpl.
    + apply String.eqb_eq in E as ->. rewrite !elem_of_cons. tauto.
    + rewrite !elem_of_cons, IH. tauto.
Qed.

Lemma domain_add_NoDup (n : string) (domains : list (string * nat)) :
  NoDup domains.*1 → NoDup (domain_add n domains).*1.
Proof.
  induction domains as [|[d' c] rest IH].
  - intros _. apply NoDup_singleton.
  - rewrite fmap_cons. intros [Hd Hrest]%NoDup_cons. simpl in Hd.
    simpl domain_add.
    destruct (String.eqb d' n) eqn:E; rewrite fmap_cons; simpl.
    + by apply NoDup_cons.
    + apply NoDup_cons. split; [|by apply IH].
      rewrite domain_add_names. intros [->|H]; [|done].
      by rewrite String.eqb_refl in E.
Qed.

Lemma domains_get (items : list ExtractedItem) (acc : list (string * nat))
  (d : string) :
  domain_get
    (fold_left (λ domains i, domain_add (item_netloc netloc_of i) domains)
       items acc) d
  = match netloc_count netloc_of d items with
    | 0 => domain_get acc d
    | k => Some (default 0 (domain_get acc d) + k)
    end.
Proof.
  unfold netloc_count.
  revert acc. induction items as [|i items IH]; intros acc; [reflexivity|].
  simpl fold_left. rewrite IH, domain_add_get. simpl List.filter.
  destruct (String.eqb (item_netloc netloc_of i) d); simpl.
  - destruct (length _); f_equal; lia.
  - reflexivity.
Qed.

Lemma domains_NoDup (items : list ExtractedItem) (acc : list (string * nat)) :
  NoDup acc.*1 →
  NoDup (fold_left
           (λ domains i, domain_add (item_netloc netloc_of i) domains)
           items acc).*1.
Proof.
  revert acc. induction items as [|i items IH]; intros acc Hacc; [exact Hacc|].
  simpl. by apply IH, domain_add_NoDup.
Qed.

Lemma domain_get_elem (domains : list (string * nat)) (d : string) (c : nat) :
  NoDup domains.*1 → (d, c) ∈ domains ↔ domain_get domains d = Some c.
Proof.
  induction domains as [|[d' c'] rest IH].
  - intros _. split; [by intros ?%elem_of_nil | done].
  - rewrite fmap_cons. intros [Hd Hrest]%NoDup_cons. simpl in Hd.
    simpl domain_get.
    rewrite elem_of_cons. destruct (String.eqb d' d) eqn:E.
    + apply String.eqb_eq in E as ->. split.
      * intros [[= ->]|Hin]; [reflexivity|]. exfalso. apply Hd.
        apply list_elem_of_fmap. by exists (d, c).
      * intros [= ->]. by left.
    + rewrite <- (IH Hrest). apply String.eqb_neq in E. split.
      * intros [[= -> ->]|Hin]; [done | exact Hin].
      * auto.
Qed.

Lemma insert_desc_perm (x : string * nat) (l : list (string * nat)) :
  Permutation (x :: l) (insert_desc x l).
Proof.
  induction l as [|y l IH]; simpl; [reflexivity|].
  destruct (y.2 <=? x.2); [reflexivity|].
  rewrite perm_swap. by constructor.
Qed.

Lemma sorted_desc_perm (l : list (string * nat)) :
  Permutation l (sorted_desc l).
Proof.
  induction l as [|x l IH]; simpl; [constructor|].
  rewrite <- insert_desc_perm. by constructor.
Qed.

Lemma insert_desc_sorted (x : string * nat) (l : list (string * nat)) :
  StronglySorted (λ a b, b.2 ≤ a.2) l →
  StronglySorted (λ a b, b.2 ≤ a.2) (insert_desc x l).
Proof.
  induction 1 as [|y l Hs IH Hall]; simpl; [by repeat constructor|].
  destruct (y.2 <=? x.2) eqn:E.
  - apply Nat.leb_le in E. constructor; [by constructor|].
    constructor; [exact E|].
    eapply Forall_impl; [exact Hall|]. simpl. intros z Hz. lia.
  - apply Nat.leb_gt in E. constructor; [exact IH|].
    rewrite <- insert_desc_perm. constructor; [simpl; lia | exact Hall].
Qed.

Lemma sorted_desc_sorted (l : list (string * nat)) :
  StronglySorted (λ a b, b.2 ≤ a.2) (sorted_desc l).
Proof.
  induction l as [|x l IH]; simpl; [constructor|].
  by apply insert_desc_sorted.
Qed.

Lemma StronglySorted_app_between {A} (R : A → A → Prop) (l1 l2 : list A) :
  StronglySorted R (l1 ++ l2) →
  StronglySorted R l1 ∧ ∀ x y, x ∈ l1 → y ∈ l2 → R x y.
Proof.
  induction l1 as [|a l1 IH]; simpl; intros Hs.
  - split; [constructor|]. by intros x y ?%elem_of_nil.
  - apply StronglySorted_inv in Hs as [Hs Hall].
    destruct (IH Hs) as [IH1 IH2]. rewrite Forall_forall in Hall. split.
    + constructor; [exact IH1|]. apply Forall_forall. intros y Hy.
      apply Hall, elem_of_app. by left.
    + intros x y [->|Hx]%elem_of_cons Hy.
      * apply Hall, elem_of_app. by right.
      * by apply IH2.
Qed.

Lemma StronglySorted_lookup {A} (R : A → A → Prop) (l : list A)
  (i j : nat) (x y : A) :
  StronglySorted R l → i < j → l !! i = Some x → l !! j = Some y → R x y.
Proof.
  intros Hs. revert i j. induction Hs as [|a l Hs IH Hall]; intros i j Hij.
  - by rewrite lookup_nil.
  - rewrite Forall_forall in Hall.
    destruct j as [|j]; [lia|]. destruct i as [|i]; simpl.
    + intros [= <-] Hy. apply Hall. by eapply list_elem_of_lookup_2.
    + apply IH. lia.
Qed.

(** X18. The top domains of a summary: at most five entries with distinct
    network locations, by decreasing count; each count is the number of
    items with that network location and is at least one; and a network
    location that is left out occurs no more often than any that is
    listed. *)
Theorem summarize_top_domains (items : list ExtractedItem) :
  let top := top_domains (summarize netloc_of items) in
  length top ≤ 5
  ∧ NoDup top.*1
  ∧ (∀ d c, (d, c) ∈ top →
       0 < c ∧ c = netloc_count netloc_of d items)
  ∧ (∀ i j x y, i < j → top !! i = Some x → top !! j = Some y → y.2 ≤ x.2)
  ∧ (∀ it, it ∈ items →
       item_netloc netloc_of it ∈ top.*1
       ∨ ∀ x, x ∈ top →
           netloc_count netloc_of (item_netloc netloc_of it) items ≤ x.2).
Proof.
  simpl.
  set (domains := fold_left
         (λ domains i, domain_add (item_netloc netloc_of i) domains) items []).
  assert (NoDup domains.*1) as Hnd by (apply domains_NoDup; constructor).
  assert (∀ d c, (d, c) ∈ domains
            ↔ 0 < c ∧ c = netloc_count netloc_of d items) as Hdom.
  { intros d c. rewrite (domain_get_elem domains d c Hnd).
    unfold domains. rewrite domains_get. simpl.
    destruct (netloc_count netloc_of d items) as [|k]; split.
    - discriminate.
    - intros [H ->]. lia.
    - intros [= <-]. split; lia.
    - intros [_ ->]. reflexivity. }
  pose proof (sorted_desc_perm domains) as Hp.
  pose proof (sorted_desc_sorted domains) as Hs.
  rewrite <- (take_drop 5 (sorted_desc domains)) in Hs.
  apply StronglySorted_app_between in Hs as [Hs1 Hs2].
  assert (∀ x, x ∈ take 5 (sorted_desc domains) → x ∈ domains) as Hsub.
  { intros x Hx. rewrite Hp. rewrite <- (take_drop 5 (sorted_desc domains)).
    apply elem_of_app. by left. }
  split; [rewrite length_take; lia|].
  split; [|split; [|split]].
  - apply (sublist_NoDup _ (sorted_desc domains).*1).
    + by rewrite <- Hp.
    + apply fmap_sublist, sublist_take.
  - intros d c Hin. by apply Hdom, Hsub.
  - intros i j x y Hij Hx Hy.
    exact (StronglySorted_lookup _ _ i j x y Hs1 Hij Hx Hy).
  - intros it Hit.
    set (d := item_netloc netloc_of it).
    assert (0 < netloc_count netloc_of d items) as Hc.
    { unfold netloc_count.
      assert (it ∈ List.filter
                (λ i, String.eqb (item_netloc netloc_of i) d) items) as Hin.
      { apply list_elem_of_In, filter_In. split; [by apply list_elem_of_In|].
        apply String.eqb_refl. }
      destruct (List.filter _ items); [by apply elem_of_nil in Hin|].
      simpl. lia. }
    assert ((d, netloc_count netloc_of d items) ∈ sorted_desc domains) as Hin.
    { rewrite <- Hp. by apply Hdom. }
    rewrite <- (take_drop 5 (sorted_desc domains)) in Hin.
    apply elem_of_app in Hin as [Hin|Hin].
    + left. apply list_elem_of_fmap. by exists (d, netloc_count netloc_of d items).
    + right. intros x Hx. exact (Hs2 x _ Hx Hin).
Qed.

Lemma filter_map_none {A B} (p : B → bool) (f : A → B) (l : list A) :
  (∀ x, p (f x) = false) → List.filter p (map f l) = [].
Proof.
  intros H. induction l as [|x l IH]; simpl; [reflexivity|].
  by rewrite H.
Qed.

(** X17. The summary of what [extract_items] returns: the count is the
    number of matched nodes; with an attribute name no item counts as a
    text item, without one no item counts as an attribute item, so that
    text items and attribute items together never exceed the count. *)
Theorem summarize_extract_items (bs : Bs4)
  (urljoin : string → string → string) (html base selector : string)
  (attr_name : option string) :
  let s := summarize netloc_of
             (extract_items bs urljoin html base selector attr_name) in
  count s = length (css_select bs (soup_parse bs html) selector)
  ∧ (truthy_opt_str attr_name = true → text_items s = 0)
  ∧ (truthy_opt_str attr_name = false → attr_items s = 0)
  ∧ text_items s + attr_items s ≤ count s.
Proof.
  simpl. rewrite extract_items_map.
  set (els := css_select bs (soup_parse bs html) selector).
  assert (truthy_opt_str attr_name = true →
          List.filter (λ i, truthy_text (text i))
            (map (extract_item urljoin base attr_name) els) = []) as Htext.
  { intros Ht. apply filter_map_none. intros el.
    unfold extract_item. by rewrite Ht. }
  assert (truthy_opt_str attr_name = false →
          List.filter (λ i, truthy_opt_attr (attr i))
            (map (extract_item urljoin base attr_name) els) = []) as Hattr.
  { intros Ht. apply filter_map_none. intros el.
    unfold extract_item. by rewrite Ht. }
  split; [apply length_map|].
  split; [by intros ->%Htext|]. split; [by intros ->%Hattr|].
  pose proof (filter_sublist (λ i, truthy_text (text i))
                (map (extract_item urljoin base attr_name) els)) as H1.
  pose proof (filter_sublist (λ i, truthy_opt_attr (attr i))
                (map (extract_item urljoin base attr_name) els)) as H2.
  apply sublist_length in H1, H2.
  destruct (truthy_opt_str attr_name) eqn:Ht.
  - rewrite (Htext eq_refl). simpl. lia.
  - rewrite (Hattr eq_refl). simpl. lia.
Qed.

End Summarize.

Example summarize_links :
  summarize
    (λ u, if String.prefix "https://example.com" u
          then Some "example.com" else Some "")
    (extract_items (tag_engine links_doc) concat_urljoin ""
       "https://example.com" "a" (Some "href"))
  = {| count := 2; text_items := 0; attr_items := 1;
       top_domains := [("example.com", 2)] |}.
Proof. vm_compute. reflexivity. Qed.
